(** * LocationPicker: the coordinate picker of src/components/LocationPicker.tsx

    The component lets a user pick a coordinate by searching a place name,
    clicking the map or dragging a marker.  The development embeds

    - the JavaScript strings the component handles, with [trim] and the
      failure condition of [encodeURIComponent];
    - the handles of the mapping library ([Map], [Marker]) as records that
      hold what the component's calls put into them;
    - the component itself: its hooks, refs, effects with their clean-ups,
      the browser's timer table and the requests in flight, and one
      handler per event the JSX and the map wire up.

    Time is counted in milliseconds.  Closures are defunctionalised: the
    timer callback [() => handleSearch(searchInput)] is the constructor
    [HandleSearch] holding the captured text, the clean-up closures of the
    two effects are [RemoveMap] and [ClearTimeout].  Calls that leave the
    component (the host callback, [fetch], [console.error], the viewport
    animation) are appended to a trace.

    The async [handleSearch] is cut at its first [await]: [handleSearch]
    runs up to it, [handleSearch_resume] from the point where the awaited
    promises have settled, with whatever happened in between.  Of React
    the model keeps what the component relies on: effects run after the
    handler that changed the state, an effect runs again, after its
    clean-up, only when one of its dependencies changed, and unmounting
    runs the clean-ups.  The props are those of the mount for the life of
    the component. *)

From Stdlib Require Import List Bool Arith NArith Lia Floats.
From Stdlib Require Strings.String Strings.Ascii.
Import ListNotations.
Import Strings.String.StringSyntax.
#[local] Delimit Scope string_scope with string.

#[local] Set Warnings "-inexact-float".
#[local] Open Scope nat_scope.

(** ** JavaScript strings *)

Module JS.

(** A string is a sequence of UTF-16 code units. *)
Definition code_unit := N.
Definition string := list code_unit.

(** A literal, from its ASCII spelling. *)
Definition lit (s : Strings.String.string) : string :=
  List.map Strings.Ascii.N_of_ascii (Strings.String.list_ascii_of_string s).

Fixpoint eqb (a b : string) : bool :=
  match a, b with
  | [], [] => true
  | x :: a', y :: b' => N.eqb x y && eqb a' b'
  | _, _ => false
  end.

(** WhiteSpace and LineTerminator of ECMAScript, the code units that
    [String.prototype.trim] strips: TAB, LF, VT, FF, CR, SP, NBSP, U+1680,
    U+2000 to U+200A, U+2028, U+2029, U+202F, U+205F, U+3000, U+FEFF. *)
Definition is_white_space (c : code_unit) : bool :=
  (existsb (N.eqb c)
     [9; 10; 11; 12; 13; 32; 160; 5760; 8232; 8233; 8239; 8287; 12288; 65279]
   || ((8192 <=? c) && (c <=? 8202)))%N.

Fixpoint trimStart (s : string) : string :=
  match s with
  | [] => []
  | c :: s' => if is_white_space c then trimStart s' else s
  end.

Definition trimEnd (s : string) : string := rev (trimStart (rev s)).

Definition trim (s : string) : string := trimEnd (trimStart s).

(** Truthiness of a string: the empty string is the only falsy one. *)
Definition truthy (s : string) : bool :=
  match s with [] => false | _ :: _ => true end.

(** A string that is empty or holds white space only. *)
Definition blank (s : string) : bool := forallb is_white_space s.

Definition is_high_surrogate (c : code_unit) : bool :=
  ((55296 <=? c) && (c <=? 56319))%N.
Definition is_low_surrogate (c : code_unit) : bool :=
  ((56320 <=? c) && (c <=? 57343))%N.

(** No lone surrogate: every high surrogate is followed by a low one and
    every low one follows a high one. *)
Fixpoint well_formed (s : string) : bool :=
  match s with
  | [] => true
  | c :: s' =>
      if is_high_surrogate c then
        match s' with
        | d :: s'' => is_low_surrogate d && well_formed s''
        | [] => false
        end
      else if is_low_surrogate c then false
      else well_formed s'
  end.

(** What a [try] block can catch here. *)
Inductive Error :=
| TypeError
| URIError
| Rejection (reason : Strings.String.string).

(** A percent-encoded URI component.  The encoding itself is kept
    abstract: the component is identified by the string it encodes. *)
Inductive Encoded := encoded (s : string).

(** [encodeURIComponent] raises a URIError exactly on a string with a lone
    surrogate. *)
Definition encodeURIComponent (s : string) : Error + Encoded :=
  if well_formed s then inr (encoded s) else inl URIError.

(** The state of the promise an async function returns. *)
Inductive Promise :=
| fulfilled
| rejected (e : Error)
| awaiting (request : nat).

End JS.

(** ** The mapping library, as far as the component calls it *)

Module Mapbox.

Record LngLat := { lng : float; lat : float }.

(** An array [[lng, lat]] passed where the library expects a position. *)
Definition convert (a : float * float) : LngLat :=
  {| lng := fst a; lat := snd a |}.

Inductive Control := NavigationControl.

Record HTMLDivElement := { className : Strings.String.string }.

Record Map := {
  container : HTMLDivElement;
  style : Strings.String.string;
  center : LngLat;
  zoom : float;
  controls : list (Control * Strings.String.string);
  scrollZoom : bool;
  on_click : bool;         (* a 'click' listener is registered *)
  removed : bool
}.

Record MapOptions := {
  opt_container : HTMLDivElement;
  opt_style : Strings.String.string;
  opt_center : float * float;
  opt_zoom : float
}.

Definition new_Map (o : MapOptions) : Map :=
  {| container := opt_container o; style := opt_style o;
     center := convert (opt_center o); zoom := opt_zoom o;
     controls := []; scrollZoom := true; on_click := false;
     removed := false |}.

Definition addControl (c : Control) (position : Strings.String.string)
    (m : Map) : Map :=
  {| container := container m; style := style m; center := center m;
     zoom := zoom m; controls := controls m ++ [(c, position)];
     scrollZoom := scrollZoom m; on_click := on_click m;
     removed := removed m |}.

Definition on_click_listen (m : Map) : Map :=
  {| container := container m; style := style m; center := center m;
     zoom := zoom m; controls := controls m; scrollZoom := scrollZoom m;
     on_click := true; removed := removed m |}.

Definition scrollZoom_enable (m : Map) : Map :=
  {| container := container m; style := style m; center := center m;
     zoom := zoom m; controls := controls m; scrollZoom := true;
     on_click := on_click m; removed := removed m |}.

Definition remove (m : Map) : Map :=
  {| container := container m; style := style m; center := center m;
     zoom := zoom m; controls := controls m; scrollZoom := scrollZoom m;
     on_click := false; removed := true |}.

Record FlyToOptions := {
  fly_center : float * float;
  fly_zoom : float;
  fly_essential : bool
}.

(** The viewport a [flyTo] animation ends at. *)
Definition flyTo (o : FlyToOptions) (m : Map) : Map :=
  {| container := container m; style := style m;
     center := convert (fly_center o); zoom := fly_zoom o;
     controls := controls m; scrollZoom := scrollZoom m;
     on_click := on_click m; removed := removed m |}.

Record Marker := {
  draggable : bool;
  lngLat : option LngLat;  (* unset until the first setLngLat *)
  added : bool;            (* addTo(map) was called *)
  on_dragend : bool        (* a 'dragend' listener is registered *)
}.

Definition new_Marker (draggable : bool) : Marker :=
  {| draggable := draggable; lngLat := None; added := false;
     on_dragend := false |}.

Definition setLngLat (a : float * float) (k : Marker) : Marker :=
  {| draggable := draggable k; lngLat := Some (convert a); added := added k;
     on_dragend := on_dragend k |}.

Definition addTo (k : Marker) : Marker :=
  {| draggable := draggable k; lngLat := lngLat k; added := true;
     on_dragend := on_dragend k |}.

Definition on_dragend_listen (k : Marker) : Marker :=
  {| draggable := draggable k; lngLat := lngLat k; added := added k;
     on_dragend := true |}.

Definition getLngLat (k : Marker) : option LngLat := lngLat k.

(** The library moves a marker the user drags. *)
Definition dragged_to (p : LngLat) (k : Marker) : Marker :=
  {| draggable := draggable k; lngLat := Some p; added := added k;
     on_dragend := on_dragend k |}.

End Mapbox.

(** ** The component *)

Module LocationPicker.

Import Mapbox.

(** [interface SearchResult]: [center] is [[longitude, latitude]]. *)
Record SearchResult := {
  place_name : JS.string;
  center : float * float
}.

(** A feature of the geocoding response; [handleSearch] reads only
    [place_name] and [center] and drops the rest, for which an id and a
    relevance stand here. *)
Record Feature := {
  feature_id : JS.string;
  feature_place_name : JS.string;
  feature_center : float * float;
  feature_relevance : float
}.

(** The value [response.json()] resolves to, as [handleSearch] reads it:
    [data.features] is an array, whose entries are features or [null], or
    it is not an array and calling [.map] on it raises a TypeError. *)
Inductive Data :=
| features (fs : list (option Feature))
| no_features_array.

(** How the two awaited promises of a lookup settle. *)
Inductive FetchOutcome :=
| fetch_rejects (e : JS.Error)      (* network error *)
| json_rejects (e : JS.Error)       (* the body is not JSON *)
| json_resolves (data : Data).

(** The request URL, by the two values its template literal interpolates. *)
Record URL := {
  url_query : JS.Encoded;
  url_access_token : option JS.string
}.

(** Calls that leave the component. *)
Inductive Effect :=
| onLocationSelected (lat lng : float)
| fetch (url : URL)
| console_error (message : Strings.String.string) (e : JS.Error)
| map_flyTo (o : FlyToOptions)
| preventDefault.

(** [() => { handleSearch(searchInput); }] with the captured text. *)
Inductive Callback := HandleSearch (query : JS.string).

Record Timer := {
  timer_id : nat;
  armed_at : nat;
  delay : nat;
  callback : Callback
}.

(** The clean-up closure of the map effect:
    [() => { map.current?.remove(); }] *)
Inductive MapCleanup := RemoveMap.

(** The clean-up closure of the debounce effect, with the id it captured:
    [() => clearTimeout(timeoutId)] *)
Inductive DebounceCleanup := ClearTimeout (timeoutId : nat).

Record Props := {
  initialLat : option float;
  initialLng : option float
}.

Definition default_initialLat : float := 28.3949%float.
Definition default_initialLng : float := 84.1240%float.

Record State := {
  (* useState *)
  searchInput : JS.string;
  open : bool;
  searchResults : list SearchResult;
  (* useRef *)
  mapContainer : option HTMLDivElement;
  map : option Map;
  marker : option Marker;
  (* what React keeps of the two effects *)
  map_cleanup : option MapCleanup;
  debounce_cleanup : option DebounceCleanup;
  mounted : bool;
  (* the page *)
  accessToken : option JS.string;   (* mapboxgl.accessToken *)
  now : nat;
  timers : list Timer;
  next_timer : nat;
  in_flight : list nat;             (* lookups awaiting their response *)
  next_request : nat;
  trace : list Effect
}.

Definition setSearchInput (v : JS.string) (s : State) : State :=
  {| searchInput := v; open := open s; searchResults := searchResults s;
     mapContainer := mapContainer s; map := map s; marker := marker s;
     map_cleanup := map_cleanup s; debounce_cleanup := debounce_cleanup s;
     mounted := mounted s; accessToken := accessToken s; now := now s;
     timers := timers s; next_timer := next_timer s;
     in_flight := in_flight s; next_request := next_request s;
     trace := trace s |}.

Definition setOpen (b : bool) (s : State) : State :=
  {| searchInput := searchInput s; open := b;
     searchResults := searchResults s;
     mapContainer := mapContainer s; map := map s; marker := marker s;
     map_cleanup := map_cleanup s; debounce_cleanup := debounce_cleanup s;
     mounted := mounted s; accessToken := accessToken s; now := now s;
     timers := timers s; next_timer := next_timer s;
     in_flight := in_flight s; next_request := next_request s;
     trace := trace s |}.

Definition setSearchResults (rs : list SearchResult) (s : State) : State :=
  {| searchInput := searchInput s; open := open s; searchResults := rs;
     mapContainer := mapContainer s; map := map s; marker := marker s;
     map_cleanup := map_cleanup s; debounce_cleanup := debounce_cleanup s;
     mounted := mounted s; accessToken := accessToken s; now := now s;
     timers := timers s; next_timer := next_timer s;
     in_flight := in_flight s; next_request := next_request s;
     trace := trace s |}.

Definition set_map (m : option Map) (s : State) : State :=
  {| searchInput := searchInput s; open := open s;
     searchResults := searchResults s;
     mapContainer := mapContainer s; map := m; marker := marker s;
     map_cleanup := map_cleanup s; debounce_cleanup := debounce_cleanup s;
     mounted := mounted s; accessToken := accessToken s; now := now s;
     timers := timers s; next_timer := next_timer s;
     in_flight := in_flight s; next_request := next_request s;
     trace := trace s |}.

Definition set_marker (k : option Marker) (s : State) : State :=
  {| searchInput := searchInput s; open := open s;
     searchResults := searchResults s;
     mapContainer := mapContainer s; map := map s; marker := k;
     map_cleanup := map_cleanup s; debounce_cleanup := debounce_cleanup s;
     mounted := mounted s; accessToken := accessToken s; now := now s;
     timers := timers s; next_timer := next_timer s;
     in_flight := in_flight s; next_request := next_request s;
     trace := trace s |}.

Definition set_cleanups (c1 : option MapCleanup)
    (c2 : option DebounceCleanup) (s : State) : State :=
  {| searchInput := searchInput s; open := open s;
     searchResults := searchResults s;
     mapContainer := mapContainer s; map := map s; marker := marker s;
     map_cleanup := c1; debounce_cleanup := c2;
     mounted := mounted s; accessToken := accessToken s; now := now s;
     timers := timers s; next_timer := next_timer s;
     in_flight := in_flight s; next_request := next_request s;
     trace := trace s |}.

Definition set_mounted (b : bool) (s : State) : State :=
  {| searchInput := searchInput s; open := open s;
     searchResults := searchResults s;
     mapContainer := mapContainer s; map := map s; marker := marker s;
     map_cleanup := map_cleanup s; debounce_cleanup := debounce_cleanup s;
     mounted := b; accessToken := accessToken s; now := now s;
     timers := timers s; next_timer := next_timer s;
     in_flight := in_flight s; next_request := next_request s;
     trace := trace s |}.

Definition set_accessToken (t : option JS.string) (s : State) : State :=
  {| searchInput := searchInput s; open := open s;
     searchResults := searchResults s;
     mapContainer := mapContainer s; map := map s; marker := marker s;
     map_cleanup := map_cleanup s; debounce_cleanup := debounce_cleanup s;
     mounted := mounted s; accessToken := t; now := now s;
     timers := timers s; next_timer := next_timer s;
     in_flight := in_flight s; next_request := next_request s;
     trace := trace s |}.

Definition set_now (t : nat) (s : State) : State :=
  {| searchInput := searchInput s; open := open s;
     searchResults := searchResults s;
     mapContainer := mapContainer s; map := map s; marker := marker s;
     map_cleanup := map_cleanup s; debounce_cleanup := debounce_cleanup s;
     mounted := mounted s; accessToken := accessToken s; now := t;
     timers := timers s; next_timer := next_timer s;
     in_flight := in_flight s; next_request := next_request s;
     trace := trace s |}.

Definition set_timers (ts : list Timer) (n : nat) (s : State) : State :=
  {| searchInput := searchInput s; open := open s;
     searchResults := searchResults s;
     mapContainer := mapContainer s; map := map s; marker := marker s;
     map_cleanup := map_cleanup s; debounce_cleanup := debounce_cleanup s;
     mounted := mounted s; accessToken := accessToken s; now := now s;
     timers := ts; next_timer := n;
     in_flight := in_flight s; next_request := next_request s;
     trace := trace s |}.

Definition set_in_flight (l : list nat) (n : nat) (s : State) : State :=
  {| searchInput := searchInput s; open := open s;
     searchResults := searchResults s;
     mapContainer := mapContainer s; map := map s; marker := marker s;
     map_cleanup := map_cleanup s; debounce_cleanup := debounce_cleanup s;
     mounted := mounted s; accessToken := accessToken s; now := now s;
     timers := timers s; next_timer := next_timer s;
     in_flight := l; next_request := n;
     trace := trace s |}.

(** Appends one call to the trace. *)
Definition emit (e : Effect) (s : State) : State :=
  {| searchInput := searchInput s; open := open s;
     searchResults := searchResults s;
     mapContainer := mapContainer s; map := map s; marker := marker s;
     map_cleanup := map_cleanup s; debounce_cleanup := debounce_cleanup s;
     mounted := mounted s; accessToken := accessToken s; now := now s;
     timers := timers s; next_timer := next_timer s;
     in_flight := in_flight s; next_request := next_request s;
     trace := trace s ++ [e] |}.

(** *** The browser's timers *)

(** [setTimeout(cb, ms)]: the browser hands out a fresh id. *)
Definition setTimeout (cb : Callback) (ms : nat) (s : State) : State * nat :=
  let id := next_timer s in
  (set_timers
     (timers s ++
      [{| timer_id := id; armed_at := now s; delay := ms; callback := cb |}])
     (S id) s,
   id).

Definition clearTimeout (id : nat) (s : State) : State :=
  set_timers (filter (fun t => negb (timer_id t =? id)) (timers s))
    (next_timer s) s.

(** A timer may fire once its delay has elapsed. *)
Definition due (t : Timer) (s : State) : bool :=
  armed_at t + delay t <=? now s.

(** *** handleSearch *)

(** The [catch] block. *)
Definition handleSearch_catch (error : JS.Error) (s : State) : State :=
  setSearchResults []
    (emit (console_error "Error searching location:"%string error) s).

(** [handleSearch], up to its first [await]. *)
Definition handleSearch (query : JS.string) (s : State)
    : State * JS.Promise :=
  if negb (JS.truthy (JS.trim query)) then
    (setSearchResults [] s, JS.fulfilled)
  else
    match JS.encodeURIComponent query with
    | inl error => (handleSearch_catch error s, JS.fulfilled)
    | inr q =>
        let request := next_request s in
        (set_in_flight (in_flight s ++ [request]) (S request)
           (emit (fetch {| url_query := q;
                           url_access_token := accessToken s |}) s),
         JS.awaiting request)
    end.

(** The callback of [data.features.map]. *)
Definition to_result (feature : Feature) : SearchResult :=
  {| place_name := feature_place_name feature;
     center := feature_center feature |}.

(** [data.features.map(...)] on an array: reading [place_name] of a
    [null] entry raises a TypeError. *)
Fixpoint map_features (fs : list (option Feature))
    : JS.Error + list SearchResult :=
  match fs with
  | [] => inr []
  | None :: _ => inl JS.TypeError
  | Some feature :: fs' =>
      match map_features fs' with
      | inl error => inl error
      | inr results => inr (to_result feature :: results)
      end
  end.

(** [handleSearch], from the point where the awaited promises settle. *)
Definition handleSearch_resume (o : FetchOutcome) (s : State)
    : State * JS.Promise :=
  match o with
  | fetch_rejects error => (handleSearch_catch error s, JS.fulfilled)
  | json_rejects error => (handleSearch_catch error s, JS.fulfilled)
  | json_resolves (features fs) =>
      match map_features fs with
      | inr results => (setSearchResults results s, JS.fulfilled)
      | inl error => (handleSearch_catch error s, JS.fulfilled)
      end
  | json_resolves no_features_array =>
      (handleSearch_catch JS.TypeError s, JS.fulfilled)
  end.

(** *** selectLocation *)

Definition selectLocation (result : SearchResult) (s : State) : State :=
  let '(lng, lat) := center result in
  (* Update marker position *)
  let s :=
    match marker s with
    | Some k => set_marker (Some (setLngLat (lng, lat) k)) s
    | None => s
    end in
  (* Fly to the location *)
  let s :=
    match map s with
    | Some m =>
        let o := {| fly_center := (lng, lat); fly_zoom := 14%float;
                    fly_essential := true |} in
        emit (map_flyTo o) (set_map (Some (flyTo o m)) s)
    | None => s
    end in
  (* Update search input and close popover *)
  let s := setSearchInput (place_name result) s in
  let s := setOpen false s in
  (* Trigger the location selected callback *)
  emit (onLocationSelected lat lng) s.

(** *** The map effect and its listeners *)

(** [marker.current?.getLngLat()] *)
Definition marker_position (s : State) : option LngLat :=
  match marker s with Some k => getLngLat k | None => None end.

(** Center and zoom of the map's viewport. *)
Definition viewport (s : State) : option (LngLat * float) :=
  option_map (fun m => (Mapbox.center m, zoom m)) (map s).

(** The 'dragend' listener. *)
Definition dragend_handler (s : State) : State :=
  match marker_position s with
  | Some lngLat => emit (onLocationSelected (lat lngLat) (lng lngLat)) s
  | None => s
  end.

(** The 'click' listener; [e] is the event's [lngLat]. *)
Definition click_handler (e : LngLat) (s : State) : State :=
  let s := emit preventDefault s in
  let '(lng, lat) := (lng e, lat e) in
  (* Update marker position immediately *)
  let s :=
    match marker s with
    | Some k => set_marker (Some (setLngLat (lng, lat) k)) s
    | None => s
    end in
  (* Update selected location without moving the map *)
  emit (onLocationSelected lat lng) s.

Definition token : JS.string :=
  JS.lit "pk.eyJ1IjoiYW53ZXNoMTMiLCJhIjoiY202dGhsMGExMDNmMjJscjN1dGdpYTB0cyJ9.UhrIpur7WpvGR5NmJDfbpQ"%string.

(** The first [useEffect]; the result is the state and the clean-up the
    effect returns, if any. *)
Definition map_effect (p : Props) (s : State)
    : State * option MapCleanup :=
  match mapContainer s with
  | None => (s, None)
  | Some div =>
      let initialLat :=
        match initialLat p with Some x => x | None => default_initialLat end in
      let initialLng :=
        match initialLng p with Some x => x | None => default_initialLng end in
      let s := set_accessToken (Some token) s in
      let m := new_Map {| opt_container := div;
                          opt_style := "mapbox://styles/mapbox/streets-v11"%string;
                          opt_center := (initialLng, initialLat);
                          opt_zoom := 6%float |} in
      let m := addControl NavigationControl "top-right"%string m in
      let k := addTo (setLngLat (initialLng, initialLat) (new_Marker true)) in
      let k := on_dragend_listen k in
      let m := on_click_listen m in
      let m := scrollZoom_enable m in
      (set_marker (Some k) (set_map (Some m) s), Some RemoveMap)
  end.

(** *** The debounce effect *)

Definition debounce_effect (s : State)
    : State * option DebounceCleanup :=
  let (s', timeoutId) := setTimeout (HandleSearch (searchInput s)) 300 s in
  (s', Some (ClearTimeout timeoutId)).

(** *** What React does with the effects *)

Definition run_map_cleanup (c : option MapCleanup) (s : State) : State :=
  match c with
  | Some RemoveMap => set_map (option_map remove (map s)) s
  | None => s
  end.

Definition run_debounce_cleanup (c : option DebounceCleanup) (s : State)
    : State :=
  match c with
  | Some (ClearTimeout timeoutId) => clearTimeout timeoutId s
  | None => s
  end.

(** The state before the first render; [container] is what React puts
    into the [mapContainer] ref. *)
Definition initial (container : option HTMLDivElement) : State :=
  {| searchInput := []; open := false; searchResults := [];
     mapContainer := container; map := None; marker := None;
     map_cleanup := None; debounce_cleanup := None; mounted := false;
     accessToken := None; now := 0; timers := []; next_timer := 1;
     in_flight := []; next_request := 1; trace := [] |}.

(** Mounting runs both effects, in the order the component declares them. *)
Definition mount (p : Props) (container : option HTMLDivElement) : State :=
  let (s1, c1) := map_effect p (initial container) in
  let (s2, c2) := debounce_effect s1 in
  set_mounted true (set_cleanups c1 c2 s2).

(** Unmounting runs the clean-ups of both effects. *)
Definition unmount (s : State) : State :=
  let s := run_map_cleanup (map_cleanup s) s in
  let s := run_debounce_cleanup (debounce_cleanup s) s in
  set_mounted false (set_cleanups None None s).

(** After a handler ran, React renders again; the debounce effect depends
    on [[searchInput]] and runs again, after its previous clean-up, only
    when the text is not the one of the previous render.  The props never
    change, so the map effect runs at mount only. *)
Definition rerender (previous : JS.string) (s : State) : State :=
  if mounted s && negb (JS.eqb previous (searchInput s)) then
    let s := run_debounce_cleanup (debounce_cleanup s) s in
    let (s, c) := debounce_effect s in
    set_cleanups (map_cleanup s) c s
  else s.

(** *** Events *)

Inductive Event :=
| InputChange (value : JS.string)     (* Input onChange *)
| InputClick                          (* Input onClick *)
| PopoverOpenChange (o : bool)        (* Popover onOpenChange *)
| ItemSelect (index : nat)            (* CommandItem onSelect *)
| MapClick (lngLat : LngLat)          (* the map's 'click' *)
| MarkerDragEnd (resting : LngLat)    (* the marker is dragged and released *)
| TimeAdvances (ms : nat)
| TimerFires (id : nat)
| FetchSettles (request : nat) (o : FetchOutcome)
| Unmount.

Definition run_callback (cb : Callback) (s : State) : State :=
  match cb with
  | HandleSearch query => fst (handleSearch query s)
  end.

(** The handler of one event.  An event that cannot be delivered (the
    component is unmounted, the list is closed, no listener is registered,
    the timer is not armed or not due, the request is not in flight)
    leaves the state as it is. *)
Definition handle (e : Event) (s : State) : State :=
  match e with
  | InputChange value =>
      if mounted s then setSearchInput value s else s
  | InputClick =>
      if mounted s then setOpen true s else s
  | PopoverOpenChange o =>
      if mounted s then setOpen o s else s
  | ItemSelect index =>
      if mounted s && open s then
        match nth_error (searchResults s) index with
        | Some result => selectLocation result s
        | None => s
        end
      else s
  | MapClick lngLat =>
      match map s with
      | Some m => if on_click m then click_handler lngLat s else s
      | None => s
      end
  | MarkerDragEnd resting =>
      match map s, marker s with
      | Some m, Some k =>
          if negb (removed m) && added k && draggable k then
            let s := set_marker (Some (dragged_to resting k)) s in
            if on_dragend k then dragend_handler s else s
          else s
      | _, _ => s
      end
  | TimeAdvances ms => set_now (now s + ms) s
  | TimerFires id =>
      match find (fun t => timer_id t =? id) (timers s) with
      | Some t =>
          (* a timer that fires leaves the table *)
          if due t s then run_callback (callback t) (clearTimeout id s)
          else s
      | None => s
      end
  | FetchSettles request o =>
      if existsb (Nat.eqb request) (in_flight s) then
        fst (handleSearch_resume o
               (set_in_flight
                  (filter (fun r => negb (r =? request)) (in_flight s))
                  (next_request s) s))
      else s
  | Unmount => if mounted s then unmount s else s
  end.

Definition step (e : Event) (s : State) : State :=
  rerender (searchInput s) (handle e s).

Definition run (es : list Event) (s : State) : State :=
  fold_left (fun s e => step e s) es s.

(** The states a component goes through: it is mounted, with or without a
    container element, and then takes events. *)
Inductive reachable : State -> Prop :=
| reachable_mount (p : Props) (container : option HTMLDivElement) :
    reachable (mount p container)
| reachable_step (e : Event) (s : State) :
    reachable s -> reachable (step e s).

(** The lookups issued so far. *)
Definition is_fetch (e : Effect) : bool :=
  match e with fetch _ => true | _ => false end.

Definition lookups (s : State) : list Effect := filter is_fetch (trace s).

(** The calls of the host callback so far. *)
Definition is_callback (e : Effect) : bool :=
  match e with onLocationSelected _ _ => true | _ => false end.

Definition callbacks (s : State) : list Effect :=
  filter is_callback (trace s).

(** [t] is the timer the debounce effect armed under [id] for the text
    [q]. *)
Definition armed_for (q : JS.string) (id : nat) (t : Timer) : Prop :=
  timer_id t = id /\ delay t = 300 /\ callback t = HandleSearch q.

(** The debounce effect keeps at most one timer armed: the one its
    pending clean-up would clear, armed for the text [q].  An unmounted
    component has none. *)
Definition timers_inv (q : JS.string) (s : State) : Prop :=
  (mounted s = true ->
   exists id,
     debounce_cleanup s = Some (ClearTimeout id)
     /\ id < next_timer s
     /\ (timers s = []
         \/ exists t,
              timers s = [t] /\ armed_for q id t /\ armed_at t <= now s))
  /\ (mounted s = false -> timers s = []).

(** The map and the marker are there, live, with both listeners. *)
Definition map_ready (s : State) : Prop :=
  exists m k,
    map s = Some m /\ marker s = Some k
    /\ removed m = false /\ on_click m = true
    /\ added k = true /\ draggable k = true /\ on_dragend k = true.

Definition is_null (f : option Feature) : bool :=
  match f with None => true | Some _ => false end.

(** A lookup fails when the request rejects or the response is not of
    the expected shape: not JSON, without a features array, or with a
    [null] where a feature should be. *)
Definition fails (o : FetchOutcome) : bool :=
  match o with
  | fetch_rejects _ | json_rejects _ => true
  | json_resolves no_features_array => true
  | json_resolves (features fs) => existsb is_null fs
  end.

(** *** What the traces and events are asked about *)





(** The events whose handlers call [onLocationSelected]. *)
Definition is_selection (e : Event) : bool :=
  match e with
  | ItemSelect _ | MapClick _ | MarkerDragEnd _ => true
  | _ => false
  end.

(** The events whose handlers do not call [setSearchInput]. *)
Definition keeps_text (e : Event) : bool :=
  match e with
  | InputChange _ | ItemSelect _ => false
  | _ => true
  end.

(** The events whose handlers can reach [setSearchResults]. *)
Definition may_set_results (e : Event) : bool :=
  match e with
  | TimerFires _ | FetchSettles _ _ => true
  | _ => false
  end.




(** A response with the features [fs]. *)
Definition found (fs : list Feature) : FetchOutcome :=
  json_resolves (features (List.map Some fs)).

(** The access token a request went out with. *)
Definition token_of (e : Effect) : option (option JS.string) :=
  match e with
  | fetch url => Some (url_access_token url)
  | _ => None
  end.

(** Every lookup of the trace went out with the token [t]. *)
Definition lookups_carry (t : option JS.string) (s : State) : Prop :=
  Forall (fun e => token_of e = Some t) (lookups s).

(** An unmounted component whose map, if it had one, is removed. *)
Definition torn_down (s : State) : Prop :=
  mounted s = false
  /\ match map s with
     | Some m => on_click m = false /\ removed m = true
     | None => True
     end.

(** A mounted component that has a map will remove it at unmount. *)
Definition map_owned (s : State) : Prop :=
  match map s with
  | Some m =>
      if mounted s then map_cleanup s = Some RemoveMap
      else on_click m = false /\ removed m = true
  | None => True
  end.

End LocationPicker.

(** ** A sample session *)

Module Sample.

Import LocationPicker.

Definition div : Mapbox.HTMLDivElement :=
  {| Mapbox.className := "w-full h-[300px] rounded-lg mb-4"%string |}.

Definition props : Props := {| initialLat := None; initialLng := None |}.

(** The component, mounted. *)
Definition mounted_picker : State := mount props (Some div).

Definition kathmandu : JS.string := JS.lit "Kathmandu, Nepal"%string.

Definition kathmandu_feature : Feature :=
  {| feature_id := JS.lit "place.1234"%string;
     feature_place_name := kathmandu;
     feature_center := (85.3%float, 27.7%float);
     feature_relevance := 1%float |}.

Definition kathmandu_result : SearchResult :=
  {| place_name := kathmandu; center := (85.3%float, 27.7%float) |}.

(** The user types the place name and pauses: the debounce timer is
    pending and due. *)
Definition typed : list Event := [InputChange kathmandu; TimeAdvances 300].

Definition typed_picker : State := run typed mounted_picker.

(** The timer fires, the lookup answers, and the user opens the list. *)
Definition searched : list Event :=
  [TimerFires 2;
   FetchSettles 1 (json_resolves (features [Some kathmandu_feature]));
   InputClick].

Definition searched_picker : State := run searched typed_picker.

(** SP, TAB and IDEOGRAPHIC SPACE *)
Definition spaces : JS.string := [32; 9; 12288]%N.

Definition pokhara : JS.string := JS.lit "Pokhara, Nepal"%string.

Definition pokhara_feature : Feature :=
  {| feature_id := JS.lit "place.5678"%string;
     feature_place_name := pokhara;
     feature_center := (83.9856%float, 28.2096%float);
     feature_relevance := 1%float |}.

(** The timer fires, and before the lookup answers the user types another
    place, pauses, and that timer fires too: two lookups are in flight,
    request 1 for Kathmandu and request 2 for Pokhara. *)
Definition two_lookups : list Event :=
  [TimerFires 2; InputChange pokhara; TimeAdvances 300; TimerFires 3].

Definition waiting_picker : State := run two_lookups typed_picker.

(** The user types the first letters of the place name in a burst. *)
Definition burst : list JS.string :=
  [JS.lit "K"%string; JS.lit "Ka"%string; JS.lit "Kat"%string].

End Sample.

(** ** Strings: [trim] and equality *)

Section Strings.

Import JS.

Lemma eqb_refl (a : JS.string) : JS.eqb a a = true.
Proof.
  induction a as [|x a IH]; simpl; [reflexivity|].
  now rewrite N.eqb_refl, IH.
Qed.

Lemma eqb_eq (a b : JS.string) : JS.eqb a b = true <-> a = b.
Proof.
  split; [|intros ->; apply eqb_refl].
  revert b; induction a as [|x a IH]; intros [|y b]; simpl;
    try discriminate; [reflexivity|].
  intros H. apply andb_true_iff in H as [Hx Hab].
  apply N.eqb_eq in Hx. apply IH in Hab. congruence.
Qed.

Lemma eqb_neq (a b : JS.string) : JS.eqb a b = false <-> a <> b.
Proof.
  rewrite <- eqb_eq. destruct (JS.eqb a b); split; congruence.
Qed.

Lemma trimStart_nil (s : JS.string) : trimStart s = [] <-> blank s = true.
Proof.
  induction s as [|c s IH]; simpl; [tauto|].
  destruct (is_white_space c); simpl; [exact IH|].
  split; discriminate.
Qed.

(** What [trimStart] leaves does not start with white space. *)
Lemma trimStart_blank (s : JS.string) :
  blank (trimStart s) = true -> trimStart s = [].
Proof.
  induction s as [|c s IH]; simpl; [reflexivity|].
  destruct (is_white_space c) eqn:Hc; [exact IH|].
  simpl. rewrite Hc. discriminate.
Qed.

Lemma blank_rev (s : JS.string) : blank (rev s) = blank s.
Proof.
  unfold blank. apply eq_true_iff_eq.
  rewrite !forallb_forall. split; intros H x Hx; apply H.
  - now apply in_rev in Hx.
  - now apply in_rev.
Qed.

Lemma rev_nil {A} (l : list A) : rev l = [] -> l = [].
Proof.
  intros H. rewrite <- (rev_involutive l), H. reflexivity.
Qed.

(** [trim] leaves nothing exactly of the strings that are empty or hold
    white space only. *)
Lemma trim_nil (s : JS.string) : trim s = [] <-> blank s = true.
Proof.
  unfold trim, trimEnd. split.
  - intros H. apply rev_nil in H. apply trimStart_nil in H.
    rewrite blank_rev in H. apply trimStart_blank in H.
    now apply trimStart_nil.
  - intros H. apply trimStart_nil in H. rewrite H. reflexivity.
Qed.

Lemma truthy_trim (s : JS.string) : truthy (trim s) = negb (blank s).
Proof.
  destruct (blank s) eqn:Hb.
  - apply trim_nil in Hb. now rewrite Hb.
  - destruct (trim s) eqn:Ht; [|reflexivity].
    apply trim_nil in Ht. congruence.
Qed.

End Strings.

(** ** The search operation *)

Section Search.

Import LocationPicker.

Lemma handleSearch_blank_eq (query : JS.string) (s : State) :
  JS.blank query = true ->
  handleSearch query s = (setSearchResults [] s, JS.fulfilled).
Proof.
  intros Hb. unfold handleSearch.
  now rewrite truthy_trim, Hb.
Qed.


(** C3. For a query that is empty or holds white space only, the search
    operation returns at once: it issues no request (the trace and the
    requests in flight are as before) and sets the result list to the
    empty list. *)
Theorem handleSearch_blank (query : JS.string) (s : State) :
  JS.blank query = true ->
  handleSearch query s = (setSearchResults [] s, JS.fulfilled)
  /\ searchResults (fst (handleSearch query s)) = []
  /\ trace (fst (handleSearch query s)) = trace s
  /\ lookups (fst (handleSearch query s)) = lookups s
  /\ in_flight (fst (handleSearch query s)) = in_flight s.
Proof.
  intros Hb. rewrite (handleSearch_blank_eq query s Hb).
  repeat split.
Qed.

Lemma handleSearch_blank_witness :
  JS.blank Sample.spaces = true
  /\ searchResults
       (fst (handleSearch Sample.spaces Sample.searched_picker)) = []
  /\ lookups (fst (handleSearch Sample.spaces Sample.searched_picker))
     = lookups Sample.searched_picker.
Proof.
  split; [reflexivity|].
  pose proof (handleSearch_blank Sample.spaces Sample.searched_picker
                eq_refl) as (_ & H2 & _ & H4 & _).
  split; [exact H2 | exact H4].
Defined.

Lemma handleSearch_catch_spec (error : JS.Error) (s : State) :
  searchResults (handleSearch_catch error s) = []
  /\ trace (handleSearch_catch error s)
     = trace s ++ [console_error "Error searching location:"%string error].
Proof. split; reflexivity. Qed.

(** The mapping raises when the array holds a [null], and maps every
    feature otherwise. *)
Lemma map_features_null (fs : list (option Feature)) :
  existsb is_null fs = true -> map_features fs = inl JS.TypeError.
Proof.
  induction fs as [|[feature|] fs IH]; simpl; intros H;
    [discriminate| |reflexivity].
  now rewrite (IH H).
Qed.

Lemma map_features_all (fs : list Feature) :
  map_features (List.map Some fs) = inr (List.map to_result fs).
Proof.
  induction fs as [|feature fs IH]; simpl; [reflexivity|].
  now rewrite IH.
Qed.

Lemma handleSearch_resume_fails (o : FetchOutcome) (s : State) :
  fails o = true ->
  exists error,
    handleSearch_resume o s = (handleSearch_catch error s, JS.fulfilled).
Proof.
  destruct o as [e|e|[fs|]]; simpl; intros Hf.
  - now exists e.
  - now exists e.
  - exists JS.TypeError. now rewrite (map_features_null fs Hf).
  - now exists JS.TypeError.
Qed.



End Search.

(** ** Selection: a chosen result, a click on the map, a dragged marker *)

Section Selection.

Import Mapbox LocationPicker.

(** A handler that leaves the search text alone is followed by no new run
    of the debounce effect. *)
Lemma rerender_same (s : State) : rerender (searchInput s) s = s.
Proof.
  unfold rerender. now rewrite eqb_refl, andb_false_r.
Qed.

Lemma rerender_unchanged (previous : JS.string) (s : State) :
  searchInput s = previous -> rerender previous s = s.
Proof. intros <-. apply rerender_same. Qed.

(** What [selectLocation] does whether or not the map was initialised. *)
Lemma selectLocation_always (result : SearchResult) (s : State) :
  searchInput (selectLocation result s) = place_name result
  /\ open (selectLocation result s) = false
  /\ searchResults (selectLocation result s) = searchResults s
  /\ timers (selectLocation result s) = timers s
  /\ lookups (selectLocation result s) = lookups s
  /\ callbacks (selectLocation result s)
     = callbacks s
       ++ [onLocationSelected (snd (center result)) (fst (center result))].
Proof.
  unfold selectLocation, lookups, callbacks.
  destruct (center result) as [c0 c1].
  destruct (marker s) eqn:Hk, (map s) eqn:Hm; simpl; rewrite ?Hm; simpl;
    rewrite ?filter_app; simpl; rewrite ?app_nil_r, <- ?app_assoc;
    repeat split.
Qed.

(** The refs after a selection, when the map was initialised. *)
Lemma selectLocation_refs
    (result : SearchResult) (c0 c1 : float) (s : State)
    (m : Map) (k : Marker) :
  center result = (c0, c1) ->
  map s = Some m ->
  marker s = Some k ->
  marker (selectLocation result s) = Some (setLngLat (c0, c1) k)
  /\ map (selectLocation result s)
     = Some (flyTo {| fly_center := (c0, c1); fly_zoom := 14%float;
                      fly_essential := true |} m).
Proof.
  intros Hc Hm Hk. unfold selectLocation.
  rewrite Hc, Hk. simpl. rewrite Hm. now split.
Qed.



Lemma click_handler_spec (e : LngLat) (s : State) (k : Marker) :
  marker s = Some k ->
  click_handler e s
  = emit (onLocationSelected (lat e) (lng e))
      (set_marker (Some (setLngLat (lng e, lat e) k))
         (emit preventDefault s)).
Proof.
  intros Hk. unfold click_handler. simpl. now rewrite Hk.
Qed.

(** C5. A click on the map at [e] puts the marker at [e] and calls the
    host with [(lat e, lng e)]; nothing else leaves the component but the
    click's [preventDefault].  The map (its center and zoom with it), the
    search text, the open state of the list, the results and the armed
    timers are as before. *)
Theorem map_click_spec (e : LngLat) (s : State) (m : Map) (k : Marker) :
  map s = Some m ->
  on_click m = true ->
  marker s = Some k ->
  marker_position (step (MapClick e) s) = Some e
  /\ trace (step (MapClick e) s)
     = trace s ++ [preventDefault; onLocationSelected (lat e) (lng e)]
  /\ map (step (MapClick e) s) = map s
  /\ viewport (step (MapClick e) s) = viewport s
  /\ searchInput (step (MapClick e) s) = searchInput s
  /\ open (step (MapClick e) s) = open s
  /\ searchResults (step (MapClick e) s) = searchResults s
  /\ timers (step (MapClick e) s) = timers s.
Proof.
  intros Hm Hc Hk. unfold step. simpl. rewrite Hm, Hc.
  rewrite (click_handler_spec e s k Hk).
  rewrite rerender_unchanged by reflexivity.
  unfold marker_position, viewport. simpl.
  rewrite <- app_assoc. destruct e. repeat split; exact Hm.
Qed.

Lemma map_click_spec_witness :
  let e := {| lng := 85.3%float; lat := 27.7%float |} in
  marker_position (step (MapClick e) Sample.mounted_picker) = Some e
  /\ callbacks (step (MapClick e) Sample.mounted_picker)
     = [onLocationSelected 27.7%float 85.3%float]
  /\ viewport (step (MapClick e) Sample.mounted_picker)
     = viewport Sample.mounted_picker.
Proof.
  intros e.
  destruct (map Sample.mounted_picker) as [m|] eqn:Hm;
    [|discriminate Hm].
  destruct (marker Sample.mounted_picker) as [k|] eqn:Hk;
    [|discriminate Hk].
  assert (Hc : on_click m = true).
  { injection Hm as <-. reflexivity. }
  pose proof (map_click_spec e Sample.mounted_picker m k Hm Hc Hk) as H.
  destruct H as (H1 & H2 & _ & H4 & _).
  split; [exact H1|]. split; [|exact H4].
  unfold callbacks. rewrite H2. reflexivity.
Defined.

Lemma dragend_handler_spec (s : State) (p : LngLat) :
  marker_position s = Some p ->
  dragend_handler s = emit (onLocationSelected (lat p) (lng p)) s.
Proof.
  intros Hp. unfold dragend_handler. now rewrite Hp.
Qed.

(** C6. When the user drags the marker and releases it at [resting], the
    trace grows by exactly one call of the host callback, with the
    latitude of [resting] first and its longitude second; the marker
    stays where it was released. *)
Theorem marker_dragend_spec
    (resting : LngLat) (s : State) (m : Map) (k : Marker) :
  map s = Some m ->
  removed m = false ->
  marker s = Some k ->
  added k = true ->
  draggable k = true ->
  on_dragend k = true ->
  trace (step (MarkerDragEnd resting) s)
  = trace s ++ [onLocationSelected (lat resting) (lng resting)]
  /\ callbacks (step (MarkerDragEnd resting) s)
     = callbacks s ++ [onLocationSelected (lat resting) (lng resting)]
  /\ marker_position (step (MarkerDragEnd resting) s) = Some resting.
Proof.
  intros Hm Hr Hk Ha Hd Hl. unfold step. simpl.
  rewrite Hm, Hk, Hr, Ha, Hd, Hl. simpl.
  rewrite (dragend_handler_spec _ resting) by reflexivity.
  rewrite rerender_unchanged by reflexivity.
  unfold callbacks. simpl. rewrite filter_app. repeat split.
Qed.

Lemma marker_dragend_spec_witness :
  let resting := {| lng := 85.3%float; lat := 27.7%float |} in
  trace (step (MarkerDragEnd resting) Sample.mounted_picker)
  = [onLocationSelected 27.7%float 85.3%float].
Proof.
  intros resting.
  destruct (map Sample.mounted_picker) as [m|] eqn:Hm;
    [|discriminate Hm].
  destruct (marker Sample.mounted_picker) as [k|] eqn:Hk;
    [|discriminate Hk].
  injection Hm as Hm'. injection Hk as Hk'.
  refine (proj1 (marker_dragend_spec resting Sample.mounted_picker m k
                   _ _ _ _ _ _));
    subst m k; reflexivity.
Defined.

(** C9. With no container element in the ref, the map effect returns at
    once: the state is untouched and no clean-up is returned.  A component
    mounted that way has no map, no marker and no access token; only its
    debounce effect ran. *)
Theorem map_effect_no_container (p : Props) (s : State) :
  mapContainer s = None ->
  map_effect p s = (s, None)
  /\ map (fst (map_effect p s)) = map s
  /\ marker (fst (map_effect p s)) = marker s
  /\ accessToken (fst (map_effect p s)) = accessToken s
  /\ trace (fst (map_effect p s)) = trace s.
Proof.
  intros Hc. unfold map_effect. rewrite Hc. repeat split.
Qed.

Lemma map_effect_no_container_witness :
  map_effect Sample.props (initial None) = (initial None, None).
Proof.
  apply (map_effect_no_container Sample.props (initial None)).
  reflexivity.
Defined.

Lemma mount_no_container (p : Props) :
  map (mount p None) = None
  /\ marker (mount p None) = None
  /\ map_cleanup (mount p None) = None
  /\ accessToken (mount p None) = None
  /\ mounted (mount p None) = true
  /\ trace (mount p None) = [].
Proof. repeat split. Qed.

End Selection.

(** ** The debounce timer *)

Section Debounce.

Import Mapbox LocationPicker.

(** What the handlers leave alone. *)

Lemma selectLocation_frame (result : SearchResult) (s : State) :
  mounted (selectLocation result s) = mounted s
  /\ debounce_cleanup (selectLocation result s) = debounce_cleanup s
  /\ next_timer (selectLocation result s) = next_timer s
  /\ timers (selectLocation result s) = timers s
  /\ now (selectLocation result s) = now s
  /\ in_flight (selectLocation result s) = in_flight s
  /\ next_request (selectLocation result s) = next_request s
  /\ accessToken (selectLocation result s) = accessToken s.
Proof.
  unfold selectLocation. destruct (center result) as [c0 c1].
  destruct (marker s) eqn:Hk, (map s) eqn:Hm; simpl; rewrite ?Hm; simpl;
    repeat split.
Qed.

Lemma click_handler_frame (e : LngLat) (s : State) :
  mounted (click_handler e s) = mounted s
  /\ debounce_cleanup (click_handler e s) = debounce_cleanup s
  /\ next_timer (click_handler e s) = next_timer s
  /\ timers (click_handler e s) = timers s
  /\ now (click_handler e s) = now s
  /\ searchInput (click_handler e s) = searchInput s
  /\ open (click_handler e s) = open s
  /\ lookups (click_handler e s) = lookups s.
Proof.
  unfold click_handler, lookups. simpl.
  destruct (marker s); simpl; rewrite !filter_app; simpl;
    rewrite !app_nil_r; repeat split.
Qed.

Lemma dragend_handler_frame (s : State) :
  mounted (dragend_handler s) = mounted s
  /\ debounce_cleanup (dragend_handler s) = debounce_cleanup s
  /\ next_timer (dragend_handler s) = next_timer s
  /\ timers (dragend_handler s) = timers s
  /\ now (dragend_handler s) = now s
  /\ searchInput (dragend_handler s) = searchInput s
  /\ open (dragend_handler s) = open s
  /\ lookups (dragend_handler s) = lookups s.
Proof.
  unfold dragend_handler, lookups.
  destruct (marker_position s); simpl; rewrite ?filter_app; simpl;
    rewrite ?app_nil_r; repeat split.
Qed.

Lemma handleSearch_frame (query : JS.string) (s : State) :
  mounted (fst (handleSearch query s)) = mounted s
  /\ debounce_cleanup (fst (handleSearch query s)) = debounce_cleanup s
  /\ next_timer (fst (handleSearch query s)) = next_timer s
  /\ timers (fst (handleSearch query s)) = timers s
  /\ now (fst (handleSearch query s)) = now s
  /\ searchInput (fst (handleSearch query s)) = searchInput s
  /\ open (fst (handleSearch query s)) = open s.
Proof.
  unfold handleSearch.
  destruct (negb (JS.truthy (JS.trim query))); [repeat split|].
  destruct (JS.encodeURIComponent query); repeat split.
Qed.

Lemma handleSearch_resume_frame (o : FetchOutcome) (s : State) :
  mounted (fst (handleSearch_resume o s)) = mounted s
  /\ debounce_cleanup (fst (handleSearch_resume o s)) = debounce_cleanup s
  /\ next_timer (fst (handleSearch_resume o s)) = next_timer s
  /\ timers (fst (handleSearch_resume o s)) = timers s
  /\ now (fst (handleSearch_resume o s)) = now s
  /\ searchInput (fst (handleSearch_resume o s)) = searchInput s
  /\ open (fst (handleSearch_resume o s)) = open s
  /\ lookups (fst (handleSearch_resume o s)) = lookups s.
Proof.
  unfold lookups.
  destruct o as [e|e|[fs|]]; simpl; try destruct (map_features fs);
    simpl; rewrite ?filter_app; simpl; rewrite ?app_nil_r; repeat split.
Qed.

(** The re-render touches the timer table and the pending clean-up only. *)
Lemma rerender_frame (previous : JS.string) (s : State) :
  mounted (rerender previous s) = mounted s
  /\ searchInput (rerender previous s) = searchInput s
  /\ open (rerender previous s) = open s
  /\ searchResults (rerender previous s) = searchResults s
  /\ map (rerender previous s) = map s
  /\ marker (rerender previous s) = marker s
  /\ now (rerender previous s) = now s
  /\ in_flight (rerender previous s) = in_flight s
  /\ next_request (rerender previous s) = next_request s
  /\ accessToken (rerender previous s) = accessToken s
  /\ trace (rerender previous s) = trace s.
Proof.
  unfold rerender.
  destruct (mounted s && negb (JS.eqb previous (searchInput s)));
    [|repeat split].
  destruct (debounce_cleanup s) as [[id]|]; repeat split.
Qed.

(** The re-render after a change of the text: the pending clean-up
    clears its timer, the effect arms a new one. *)
Lemma rerender_changed (previous : JS.string) (s : State) :
  mounted s = true ->
  previous <> searchInput s ->
  timers (rerender previous s)
  = timers (run_debounce_cleanup (debounce_cleanup s) s)
    ++ [{| timer_id := next_timer s; armed_at := now s; delay := 300;
           callback := HandleSearch (searchInput s) |}]
  /\ next_timer (rerender previous s) = S (next_timer s)
  /\ debounce_cleanup (rerender previous s)
     = Some (ClearTimeout (next_timer s)).
Proof.
  intros Hm Hne. unfold rerender.
  apply eqb_neq in Hne. rewrite Hm, Hne. simpl.
  destruct (debounce_cleanup s) as [[id]|]; repeat split.
Qed.

Lemma timers_inv_frame (q : JS.string) (s s' : State) :
  mounted s' = mounted s ->
  debounce_cleanup s' = debounce_cleanup s ->
  next_timer s' = next_timer s ->
  timers s' = timers s ->
  now s <= now s' ->
  timers_inv q s -> timers_inv q s'.
Proof.
  unfold timers_inv. intros -> -> -> -> Hn [H1 H2]. split; [|exact H2].
  intros Hm. destruct (H1 Hm) as (id & Hc & Hid & Ht).
  exists id. split; [exact Hc|]. split; [exact Hid|].
  destruct Ht as [Ht|(t & Ht & Ha & Hle)]; [now left|right].
  exists t. split; [exact Ht|]. split; [exact Ha|lia].
Qed.

(** Clearing the timer of the pending clean-up empties the table. *)
Lemma clear_pending (q : JS.string) (s : State) (id : nat) :
  timers_inv q s ->
  mounted s = true ->
  debounce_cleanup s = Some (ClearTimeout id) ->
  timers (clearTimeout id s) = [].
Proof.
  intros [H1 _] Hm Hc. destruct (H1 Hm) as (id' & Hc' & _ & Ht).
  rewrite Hc in Hc'. injection Hc' as <-. simpl.
  destruct Ht as [->|(t & -> & (Hid & _) & _)]; [reflexivity|].
  simpl. now rewrite Hid, Nat.eqb_refl.
Qed.

Lemma timers_inv_mount (p : Props) (container : option HTMLDivElement) :
  timers_inv (searchInput (mount p container)) (mount p container).
Proof.
  unfold timers_inv, mount, map_effect, initial. simpl.
  destruct container; simpl; (split; [intros _|discriminate]);
    exists 1; simpl; (split; [reflexivity|]); (split; [lia|]); right;
    eexists; (split; [reflexivity|]); simpl;
    (split; [repeat split|lia]).
Qed.

(** The handlers keep the invariant, for the text of the render in which
    the timer was armed. *)
Lemma timers_inv_handle (e : Event) (s : State) :
  timers_inv (searchInput s) s ->
  timers_inv (searchInput s) (handle e s).
Proof.
  intros Hinv. destruct e as [v| |o|i|p|p|ms|id|r o|]; simpl.
  - destruct (mounted s); [|exact Hinv].
    now apply (timers_inv_frame _ s).
  - destruct (mounted s); [|exact Hinv].
    now apply (timers_inv_frame _ s).
  - destruct (mounted s); [|exact Hinv].
    now apply (timers_inv_frame _ s).
  - destruct (mounted s && open s); [|exact Hinv].
    destruct (nth_error (searchResults s) i) as [result|]; [|exact Hinv].
    destruct (selectLocation_frame result s) as (? & ? & ? & ? & Hn & _).
    apply (timers_inv_frame _ s); try assumption. now rewrite Hn.
  - destruct (map s) as [m|]; [|exact Hinv].
    destruct (on_click m); [|exact Hinv].
    destruct (click_handler_frame p s) as (? & ? & ? & ? & Hn & _).
    apply (timers_inv_frame _ s); try assumption. now rewrite Hn.
  - destruct (map s) as [m|]; [|exact Hinv].
    destruct (marker s) as [k|]; [|exact Hinv].
    destruct (negb (removed m) && added k && draggable k); [|exact Hinv].
    destruct (on_dragend k).
    + destruct (dragend_handler_frame
                  (set_marker (Some (dragged_to p k)) s))
        as (? & ? & ? & ? & Hn & _).
      apply (timers_inv_frame _ s); try assumption. now rewrite Hn.
    + now apply (timers_inv_frame _ s).
  - apply (timers_inv_frame _ s); try reflexivity; [simpl; lia|exact Hinv].
  - destruct (find (fun t => timer_id t =? id) (timers s)) as [t|] eqn:Hf;
      [|exact Hinv].
    destruct (due t s); [|exact Hinv].
    destruct (callback t) as [query]. simpl.
    destruct (handleSearch_frame query (clearTimeout id s))
      as (Hm & Hc & Hnt & Ht & Hn & _).
    simpl in Hm, Hc, Hnt, Ht, Hn.
    destruct Hinv as [H1 H2]. split.
    + rewrite Hm. intros Hmt. destruct (H1 Hmt) as (id' & Hc' & Hid & Hts).
      exists id'. rewrite Hc, Hnt, Ht. repeat split; try assumption.
      left. destruct Hts as [Hts|(t' & Hts & _)].
      * now rewrite Hts.
      * rewrite Hts in Hf |- *. simpl in Hf |- *.
        destruct (timer_id t' =? id); [reflexivity|discriminate].
    + rewrite Hm, Ht. intros Hmf. now rewrite (H2 Hmf).
  - destruct (existsb (Nat.eqb r) (in_flight s)); [|exact Hinv].
    destruct (handleSearch_resume_frame o
                (set_in_flight
                   (filter (fun r0 => negb (r0 =? r)) (in_flight s))
                   (next_request s) s))
      as (? & ? & ? & ? & Hn & _).
    apply (timers_inv_frame _ s); try assumption. now rewrite Hn.
  - destruct (mounted s) eqn:Hm; [|exact Hinv].
    split; [discriminate|]. intros _. unfold unmount. simpl.
    destruct (debounce_cleanup s) as [[id]|] eqn:Hc.
    + assert (Hclear : timers (clearTimeout id s) = [])
        by exact (clear_pending _ s id Hinv Hm Hc).
      destruct (map_cleanup s) as [[]|]; simpl in Hclear |- *;
        rewrite Hc; simpl; exact Hclear.
    + destruct Hinv as [H1 _]. destruct (H1 Hm) as (? & Hc' & _).
      congruence.
Qed.

(** The re-render restores the invariant for the new text. *)
Lemma timers_inv_rerender (previous : JS.string) (s : State) :
  timers_inv previous s ->
  timers_inv (searchInput s) (rerender previous s).
Proof.
  intros Hinv.
  destruct (mounted s) eqn:Hm.
  - destruct (JS.eqb previous (searchInput s)) eqn:He.
    + apply eqb_eq in He. subst previous.
      now rewrite rerender_same.
    + apply eqb_neq in He.
      destruct (rerender_changed previous s Hm He) as (Ht & Hnt & Hc).
      destruct (rerender_frame previous s) as (Hm' & _ & _ & _ & _ & _ & Hn & _).
      split; [|rewrite Hm', Hm; discriminate].
      intros _. exists (next_timer s). rewrite Hc, Hnt, Ht, Hn.
      split; [reflexivity|]. split; [lia|]. right.
      destruct (proj1 Hinv Hm) as (id & Hid & _).
      rewrite Hid. simpl run_debounce_cleanup.
      rewrite (clear_pending _ s id Hinv Hm Hid). simpl.
      eexists. split; [reflexivity|]. repeat split. simpl. lia.
  - unfold rerender. rewrite Hm. simpl.
    destruct Hinv as [_ H2]. split; [congruence|]. intros _. now apply H2.
Qed.

Lemma timers_inv_step (e : Event) (s : State) :
  timers_inv (searchInput s) s ->
  timers_inv (searchInput (step e s)) (step e s).
Proof.
  intros Hinv. unfold step.
  destruct (rerender_frame (searchInput s) (handle e s))
    as (_ & Hs & _).
  rewrite Hs. apply timers_inv_rerender. now apply timers_inv_handle.
Qed.

Lemma reachable_timers_inv (s : State) :
  reachable s -> timers_inv (searchInput s) s.
Proof.
  induction 1 as [p container|e s _ IH].
  - apply timers_inv_mount.
  - now apply timers_inv_step.
Qed.

Lemma reachable_run (es : list Event) (s : State) :
  reachable s -> reachable (run es s).
Proof.
  revert s. induction es as [|e es IH]; intros s Hs; [exact Hs|].
  apply IH. now constructor.
Qed.

End Debounce.

(** ** Lookups are issued by the debounce timer only *)

Section Lookups.

Import Mapbox LocationPicker.

Lemma lookups_emit (e : Effect) (s : State) :
  lookups (emit e s)
  = lookups s ++ (if is_fetch e then [e] else []).
Proof.
  unfold lookups. simpl. rewrite filter_app. simpl.
  now destruct (is_fetch e).
Qed.

Lemma lookups_step (e : Event) (s : State) :
  lookups (step e s) = lookups (handle e s).
Proof.
  unfold step, lookups.
  destruct (rerender_frame (searchInput s) (handle e s))
    as (_ & _ & _ & _ & _ & _ & _ & _ & _ & _ & Ht).
  now rewrite Ht.
Qed.

Lemma lookups_selectLocation (result : SearchResult) (s : State) :
  lookups (selectLocation result s) = lookups s.
Proof. apply selectLocation_always. Qed.

(** What the search operation adds to the lookups. *)
Lemma lookups_handleSearch (query : JS.string) (s : State) :
  lookups (fst (handleSearch query s))
  = lookups s
    ++ (if negb (JS.blank query) && JS.well_formed query
        then [fetch {| url_query := JS.encoded query;
                       url_access_token := accessToken s |}]
        else []).
Proof.
  unfold handleSearch. rewrite truthy_trim, negb_involutive.
  unfold JS.encodeURIComponent, lookups.
  destruct (JS.blank query); simpl; [now rewrite app_nil_r|].
  destruct (JS.well_formed query); simpl; rewrite filter_app; simpl;
    [reflexivity|now rewrite app_nil_r].
Qed.

(** No event but a firing timer issues a lookup. *)
Lemma lookups_handle_other (e : Event) (s : State) :
  (forall id, e <> TimerFires id) ->
  lookups (handle e s) = lookups s.
Proof.
  intros Hne. destruct e as [v| |o|i|p|p|ms|id|r o|]; simpl.
  - now destruct (mounted s).
  - now destruct (mounted s).
  - now destruct (mounted s).
  - destruct (mounted s && open s); [|reflexivity].
    destruct (nth_error (searchResults s) i); [|reflexivity].
    apply lookups_selectLocation.
  - destruct (map s) as [m|]; [|reflexivity].
    destruct (on_click m); [|reflexivity].
    apply click_handler_frame.
  - destruct (map s) as [m|]; [|reflexivity].
    destruct (marker s) as [k|]; [|reflexivity].
    destruct (negb (removed m) && added k && draggable k); [|reflexivity].
    destruct (on_dragend k); [|reflexivity].
    destruct (dragend_handler_frame (set_marker (Some (dragged_to p k)) s))
      as (_ & _ & _ & _ & _ & _ & _ & Hl).
    exact Hl.
  - reflexivity.
  - now elim (Hne id).
  - destruct (existsb (Nat.eqb r) (in_flight s)); [|reflexivity].
    destruct (handleSearch_resume_frame o
                (set_in_flight
                   (filter (fun r0 => negb (r0 =? r)) (in_flight s))
                   (next_request s) s))
      as (_ & _ & _ & _ & _ & _ & _ & Hl).
    exact Hl.
  - destruct (mounted s); [|reflexivity].
    unfold unmount, lookups. simpl.
    destruct (map_cleanup s) as [[]|]; simpl;
      destruct (debounce_cleanup s) as [[id]|]; reflexivity.
Qed.

(** A timer that fires: it must be armed and due; its callback then runs
    the search operation for the text it captured. *)
Lemma lookups_timer_fires (id : nat) (s : State) :
  lookups (handle (TimerFires id) s) = lookups s
  \/ exists t query,
       find (fun t => timer_id t =? id) (timers s) = Some t
       /\ due t s = true
       /\ callback t = HandleSearch query
       /\ lookups (handle (TimerFires id) s)
          = lookups s
            ++ [fetch {| url_query := JS.encoded query;
                         url_access_token := accessToken s |}].
Proof.
  simpl.
  destruct (find (fun t => timer_id t =? id) (timers s)) as [t|] eqn:Hf;
    [|now left].
  destruct (due t s) eqn:Hd; [|now left].
  destruct (callback t) as [query] eqn:Hcb. simpl.
  rewrite lookups_handleSearch.
  destruct (negb (JS.blank query) && JS.well_formed query).
  - right. exists t, query. repeat split; assumption.
  - left. now rewrite app_nil_r.
Qed.

Lemma lookups_timer_fires_or_other (e : Event) (s : State) :
  lookups (handle e s) = lookups s
  \/ exists id t,
       e = TimerFires id
       /\ find (fun t => timer_id t =? id) (timers s) = Some t.
Proof.
  destruct e as [v| |o|i|p|p|ms|id|r o|];
    try (left; apply lookups_handle_other; discriminate).
  destruct (lookups_timer_fires id s) as [H|(t & _ & Hf & _)];
    [now left|right].
  now exists id, t.
Qed.

(** C2. In every state the component reaches, at most one debounce timer
    is armed.  A change of the search text leaves exactly one timer in
    the table, armed at the time of the change for 300 ms and for the new
    text; whatever timer was pending before is gone.  A step issues a
    lookup only if it is the firing of the one armed timer, at least
    300 ms after that timer was armed and for the text the input still
    holds: the lookup then is the request for that text. *)
Theorem debounce_spec (s : State) :
  reachable s ->
  length (timers s) <= 1
  /\ (forall v,
        mounted s = true ->
        v <> searchInput s ->
        timers (step (InputChange v) s)
        = [{| timer_id := next_timer s; armed_at := now s; delay := 300;
              callback := HandleSearch v |}]
        /\ (forall t, In t (timers s) ->
                      ~ In t (timers (step (InputChange v) s))))
  /\ (forall e,
        lookups (step e s) <> lookups s ->
        exists t,
          e = TimerFires (timer_id t)
          /\ timers s = [t]
          /\ delay t = 300
          /\ armed_at t + 300 <= now s
          /\ callback t = HandleSearch (searchInput s)
          /\ lookups (step e s)
             = lookups s
               ++ [fetch {| url_query := JS.encoded (searchInput s);
                            url_access_token := accessToken s |}]).
Proof.
  intros Hr. pose proof (reachable_timers_inv s Hr) as Hinv.
  split; [|split].
  - destruct Hinv as [H1 H2]. destruct (mounted s).
    + destruct (H1 eq_refl) as (_ & _ & _ & [->|(t & -> & _)]); simpl; lia.
    + rewrite (H2 eq_refl). simpl. lia.
  - intros v Hm Hne.
    assert (Hinv' : timers_inv (searchInput s) (setSearchInput v s)).
    { apply (timers_inv_frame _ s); try reflexivity; exact Hinv. }
    assert (Hne' : searchInput s <> searchInput (setSearchInput v s)).
    { simpl. congruence. }
    unfold step. simpl handle. rewrite Hm.
    destruct (rerender_changed (searchInput s) (setSearchInput v s) Hm Hne')
      as (Ht & _).
    destruct (proj1 Hinv Hm) as (id & Hc & Hid & Hts).
    assert (Hclear : timers (run_debounce_cleanup
                               (debounce_cleanup (setSearchInput v s))
                               (setSearchInput v s)) = []).
    { simpl debounce_cleanup. rewrite Hc.
      exact (clear_pending _ _ id Hinv' Hm Hc). }
    rewrite Ht, Hclear. simpl. split; [reflexivity|].
    intros t Hin [Heq|[]]. subst t.
    destruct Hts as [Hts|(t' & Hts & (Hid' & _) & _)];
      rewrite Hts in Hin; simpl in Hin.
    + exact Hin.
    + destruct Hin as [Heq|[]]. rewrite Heq in Hid'. simpl in Hid'. lia.
  - intros e Hne. rewrite lookups_step in Hne |- *.
    destruct e as [v| |o|i|p|p|ms|id|r o|];
      try (elim Hne; apply lookups_handle_other; discriminate).
    destruct (lookups_timer_fires id s)
      as [Heq|(t & query & Hf & Hd & Hcb & Hl)]; [now elim Hne|].
    destruct Hinv as [H1 H2]. destruct (mounted s).
    + destruct (H1 eq_refl) as (id' & _ & _ & [Hts|(t' & Hts & Ha & _)]);
        rewrite Hts in Hf; simpl in Hf; try discriminate.
      destruct (timer_id t' =? id) eqn:Hid; [|discriminate].
      injection Hf as ->. apply Nat.eqb_eq in Hid.
      destruct Ha as (_ & Hdl & Hq).
      rewrite Hcb in Hq. injection Hq as ->.
      exists t. unfold due in Hd. rewrite Hdl in Hd.
      apply Nat.leb_le in Hd. subst id. repeat split; assumption.
    + rewrite (H2 eq_refl) in Hf. discriminate.
Qed.

(** At the event loop: the response of a lookup in flight that fails. *)
Lemma fetch_settles_failure
    (request : nat) (o : FetchOutcome) (s : State) :
  existsb (Nat.eqb request) (in_flight s) = true ->
  fails o = true ->
  searchResults (step (FetchSettles request o) s) = []
  /\ lookups (step (FetchSettles request o) s) = lookups s
  /\ exists error,
       trace (step (FetchSettles request o) s)
       = trace s ++ [console_error "Error searching location:"%string error].
Proof.
  intros Hin Ho. unfold step. simpl handle. rewrite Hin.
  set (s' := set_in_flight _ _ s).
  destruct (handleSearch_resume_fails o s' Ho) as [error He].
  destruct (handleSearch_resume_frame o s') as (_ & _ & _ & _ & _ & Hi & _ & Hl).
  rewrite rerender_unchanged by exact Hi.
  split; [|split].
  - now rewrite He.
  - exact Hl.
  - exists error. now rewrite He.
Qed.

Lemma typed_picker_reachable : reachable Sample.typed_picker.
Proof. apply (reachable_run Sample.typed), reachable_mount. Qed.

Lemma searched_picker_reachable : reachable Sample.searched_picker.
Proof. apply (reachable_run Sample.searched), typed_picker_reachable. Qed.

Lemma debounce_spec_witness :
  length (timers Sample.typed_picker) <= 1
  /\ timers (step (InputChange Sample.spaces) Sample.typed_picker)
     = [{| timer_id := 3; armed_at := 300; delay := 300;
           callback := HandleSearch Sample.spaces |}]
  /\ exists t,
       timers Sample.typed_picker = [t]
       /\ lookups (step (TimerFires (timer_id t)) Sample.typed_picker)
          = [fetch {| url_query := JS.encoded Sample.kathmandu;
                      url_access_token := Some token |}].
Proof.
  destruct (debounce_spec Sample.typed_picker typed_picker_reachable)
    as (H1 & H2 & H3).
  split; [exact H1|]. split.
  - apply (H2 Sample.spaces); [reflexivity|discriminate].
  - destruct (H3 (TimerFires 2)) as (t & _ & Ht & _ & _ & _ & Hl).
    + discriminate.
    + exists t. split; [exact Ht|].
      injection Ht as <-. exact Hl.
Defined.

End Lookups.

(** ** Unmounting *)

Section Unmounting.

Import Mapbox LocationPicker.

Lemma mounted_handle (e : Event) (s : State) :
  mounted s = false -> mounted (handle e s) = false.
Proof.
  intros Hm. destruct e as [v| |o|i|p|p|ms|id|r o|]; simpl;
    rewrite ?Hm; simpl; try exact Hm; try reflexivity.
  - destruct (map s) as [m|]; [|exact Hm].
    destruct (on_click m); [|exact Hm].
    destruct (click_handler_frame p s) as (-> & _). exact Hm.
  - destruct (map s) as [m|]; [|exact Hm].
    destruct (marker s) as [k|]; [|exact Hm].
    destruct (negb (removed m) && added k && draggable k); [|exact Hm].
    destruct (on_dragend k); [|exact Hm].
    destruct (dragend_handler_frame (set_marker (Some (dragged_to p k)) s))
      as (-> & _).
    exact Hm.
  - destruct (find (fun t => timer_id t =? id) (timers s)) as [t|];
      [|exact Hm].
    destruct (due t s); [|exact Hm].
    destruct (callback t) as [query]. simpl.
    destruct (handleSearch_frame query (clearTimeout id s)) as (-> & _).
    exact Hm.
  - destruct (existsb (Nat.eqb r) (in_flight s)); [|exact Hm].
    destruct (handleSearch_resume_frame o
                (set_in_flight
                   (filter (fun r0 => negb (r0 =? r)) (in_flight s))
                   (next_request s) s))
      as (-> & _).
    exact Hm.
Qed.

(** An unmounted component with no timer stays so and issues nothing. *)
Lemma unmounted_step (e : Event) (s : State) :
  mounted s = false ->
  timers s = [] ->
  mounted (step e s) = false
  /\ timers (step e s) = []
  /\ lookups (step e s) = lookups s.
Proof.
  intros Hm Ht.
  assert (Hm' : mounted (step e s) = false).
  { unfold step.
    destruct (rerender_frame (searchInput s) (handle e s)) as (-> & _).
    now apply mounted_handle. }
  assert (Hinv : timers_inv (searchInput s) s).
  { split; [congruence|now intros _]. }
  split; [exact Hm'|]. split.
  - apply (timers_inv_step e) in Hinv. now apply Hinv.
  - rewrite lookups_step.
    destruct (lookups_timer_fires_or_other e s) as [H|(id & t & -> & Hf)];
      [exact H|].
    rewrite Ht in Hf. discriminate.
Qed.

Lemma unmounted_run (es : list Event) (s : State) :
  mounted s = false ->
  timers s = [] ->
  timers (run es s) = [] /\ lookups (run es s) = lookups s.
Proof.
  revert s. induction es as [|e es IH]; intros s Hm Ht; [now split|].
  destruct (unmounted_step e s Hm Ht) as (Hm' & Ht' & Hl).
  destruct (IH (step e s) Hm' Ht') as (IH1 & IH2).
  simpl. split; [exact IH1|congruence].
Qed.

(** C7. Unmounting a component clears the timer its debounce effect has
    pending: after the unmount the timer table is empty, and whatever
    happens next (time passing, timers asked to fire, responses arriving,
    stray events) the table stays empty and no lookup is added to the
    ones issued before the unmount. *)
Theorem unmount_cancels (s : State) :
  reachable s ->
  mounted s = true ->
  mounted (step Unmount s) = false
  /\ timers (step Unmount s) = []
  /\ lookups (step Unmount s) = lookups s
  /\ forall es,
       timers (run es (step Unmount s)) = []
       /\ lookups (run es (step Unmount s)) = lookups s.
Proof.
  intros Hr Hm.
  pose proof (reachable_timers_inv _ (reachable_step Unmount s Hr)) as Hinv.
  assert (Hm' : mounted (step Unmount s) = false).
  { unfold step.
    destruct (rerender_frame (searchInput s) (handle Unmount s))
      as (-> & _).
    simpl. now rewrite Hm. }
  assert (Ht : timers (step Unmount s) = []) by now apply Hinv.
  assert (Hl : lookups (step Unmount s) = lookups s).
  { rewrite lookups_step. now apply lookups_handle_other. }
  repeat split; try assumption.
  - now apply unmounted_run.
  - rewrite <- Hl. now apply unmounted_run.
Qed.

Lemma unmount_cancels_witness :
  length (timers Sample.typed_picker) = 1
  /\ timers (step Unmount Sample.typed_picker) = []
  /\ lookups (run [TimeAdvances 300; TimerFires 2]
                (step Unmount Sample.typed_picker))
     = lookups Sample.typed_picker.
Proof.
  split; [reflexivity|].
  destruct (unmount_cancels Sample.typed_picker typed_picker_reachable
              eq_refl) as (_ & Ht & _ & Hes).
  split; [exact Ht|apply Hes].
Defined.

End Unmounting.

(** ** The map of a mounted component *)

Section Initialised.

Import Mapbox LocationPicker.

Lemma handleSearch_refs (query : JS.string) (s : State) :
  map (fst (handleSearch query s)) = map s
  /\ marker (fst (handleSearch query s)) = marker s.
Proof.
  unfold handleSearch.
  destruct (negb (JS.truthy (JS.trim query))); [now split|].
  destruct (JS.encodeURIComponent query); now split.
Qed.

Lemma handleSearch_resume_refs (o : FetchOutcome) (s : State) :
  map (fst (handleSearch_resume o s)) = map s
  /\ marker (fst (handleSearch_resume o s)) = marker s.
Proof.
  destruct o as [e|e|[fs|]]; simpl; try destruct (map_features fs);
    now split.
Qed.

Lemma mounted_step (e : Event) (s : State) :
  mounted (step e s) = true -> mounted s = true.
Proof.
  unfold step.
  destruct (rerender_frame (searchInput s) (handle e s)) as (-> & _).
  destruct (mounted s) eqn:Hm; [reflexivity|].
  now rewrite (mounted_handle e s Hm).
Qed.

Lemma map_ready_mount (p : Props) (div : HTMLDivElement) :
  map_ready (mount p (Some div)).
Proof.
  unfold map_ready, mount, map_effect. simpl.
  do 2 eexists. repeat split.
Qed.

Lemma map_ready_refs (s s' : State) :
  map s' = map s -> marker s' = marker s -> map_ready s -> map_ready s'.
Proof. unfold map_ready. now intros -> ->. Qed.

Lemma map_ready_handle (e : Event) (s : State) :
  e <> Unmount -> map_ready s -> map_ready (handle e s).
Proof.
  intros Hne Hr.
  destruct e as [v| |o|i|p|p|ms|id|r o|]; simpl.
  - destruct (mounted s); [|exact Hr]. now apply (map_ready_refs s).
  - destruct (mounted s); [|exact Hr]. now apply (map_ready_refs s).
  - destruct (mounted s); [|exact Hr]. now apply (map_ready_refs s).
  - destruct (mounted s && open s); [|exact Hr].
    destruct (nth_error (searchResults s) i) as [result|]; [|exact Hr].
    destruct Hr as (m & k & Hm & Hk & H1 & H2 & H3 & H4 & H5).
    destruct (center result) as [c0 c1] eqn:Hc.
    destruct (selectLocation_refs result c0 c1 s m k Hc Hm Hk)
      as (Hk' & Hm').
    exists (flyTo {| fly_center := (c0, c1); fly_zoom := 14%float;
                     fly_essential := true |} m),
           (setLngLat (c0, c1) k).
    repeat split; assumption.
  - destruct Hr as (m & k & Hm & Hk & H1 & H2 & H3 & H4 & H5).
    rewrite Hm, H2. rewrite (click_handler_spec p s k Hk).
    exists m, (setLngLat (lng p, lat p) k). repeat split; assumption.
  - destruct Hr as (m & k & Hm & Hk & H1 & H2 & H3 & H4 & H5).
    rewrite Hm, Hk, H1, H3, H4, H5. simpl.
    rewrite (dragend_handler_spec _ p) by reflexivity.
    exists m, (dragged_to p k). repeat split; assumption.
  - now apply (map_ready_refs s).
  - destruct (find (fun t => timer_id t =? id) (timers s)) as [t|];
      [|exact Hr].
    destruct (due t s); [|exact Hr].
    destruct (callback t) as [query]. simpl.
    destruct (handleSearch_refs query (clearTimeout id s)) as (Hm & Hk).
    now apply (map_ready_refs s).
  - destruct (existsb (Nat.eqb r) (in_flight s)); [|exact Hr].
    destruct (handleSearch_resume_refs o
                (set_in_flight
                   (filter (fun r0 => negb (r0 =? r)) (in_flight s))
                   (next_request s) s)) as (Hm & Hk).
    now apply (map_ready_refs s).
  - now elim Hne.
Qed.

Lemma map_ready_step (e : Event) (s : State) :
  map_ready s -> mounted (step e s) = true -> map_ready (step e s).
Proof.
  intros Hr Hm.
  assert (Hne : e <> Unmount).
  { intros ->. pose proof (mounted_step _ _ Hm) as Hm0.
    unfold step in Hm.
    destruct (rerender_frame (searchInput s) (handle Unmount s))
      as (Hm1 & _).
    rewrite Hm1 in Hm. simpl in Hm. rewrite Hm0 in Hm. discriminate. }
  unfold step.
  destruct (rerender_frame (searchInput s) (handle e s))
    as (_ & _ & _ & _ & Hmap & Hmarker & _).
  apply (map_ready_refs (handle e s)); try assumption.
  now apply map_ready_handle.
Qed.

(** A component mounted with its container has, as long as it is mounted,
    a live map and marker with both listeners: the handlers for a chosen
    result, a click and a drag find them. *)
Lemma run_map_ready (p : Props) (div : HTMLDivElement) (es : list Event) :
  mounted (run es (mount p (Some div))) = true ->
  map_ready (run es (mount p (Some div))).
Proof.
  induction es as [|e es IH] using rev_ind; intros Hm.
  - apply map_ready_mount.
  - unfold run in *. rewrite fold_left_app in *. simpl in *.
    apply map_ready_step; [|exact Hm].
    apply IH. now apply (mounted_step e).
Qed.

End Initialised.

(** ** The result list: open and closed *)

Section Visibility.

Import Mapbox LocationPicker.






End Visibility.

(** ** A selection changes the search text too *)

Section SelectionLookup.

Import Mapbox LocationPicker.

Lemma step_time_advances (ms : nat) (s : State) :
  step (TimeAdvances ms) s = set_now (now s + ms) s.
Proof. unfold step. simpl handle. now apply rerender_unchanged. Qed.

(** The one armed timer fires once it is due. *)
Lemma step_timer_fires (t : Timer) (query : JS.string) (s : State) :
  timers s = [t] ->
  due t s = true ->
  callback t = HandleSearch query ->
  step (TimerFires (timer_id t)) s
  = fst (handleSearch query (clearTimeout (timer_id t) s)).
Proof.
  intros Ht Hd Hcb. unfold step. simpl handle.
  rewrite Ht. simpl find. rewrite Nat.eqb_refl, Hd, Hcb. simpl run_callback.
  apply rerender_unchanged.
  now destruct (handleSearch_frame query (clearTimeout (timer_id t) s))
    as (_ & _ & _ & _ & _ & -> & _).
Qed.





End SelectionLookup.

(** ** The host callback, over all events *)

Section HostCallback.

Import Mapbox LocationPicker.

Lemma callbacks_emit (e : Effect) (s : State) :
  callbacks (emit e s)
  = callbacks s ++ (if is_callback e then [e] else []).
Proof.
  unfold callbacks. simpl. rewrite filter_app. simpl.
  now destruct (is_callback e).
Qed.

Lemma trace_step (e : Event) (s : State) :
  trace (step e s) = trace (handle e s).
Proof.
  unfold step.
  now destruct (rerender_frame (searchInput s) (handle e s))
    as (_ & _ & _ & _ & _ & _ & _ & _ & _ & _ & ->).
Qed.

Lemma callbacks_step (e : Event) (s : State) :
  callbacks (step e s) = callbacks (handle e s).
Proof. unfold callbacks. now rewrite trace_step. Qed.



Lemma callbacks_handleSearch (query : JS.string) (s : State) :
  callbacks (fst (handleSearch query s)) = callbacks s.
Proof.
  unfold handleSearch, callbacks.
  destruct (negb (JS.truthy (JS.trim query))); [reflexivity|].
  destruct (JS.encodeURIComponent query); simpl; rewrite filter_app;
    simpl; apply app_nil_r.
Qed.

Lemma callbacks_handleSearch_resume (o : FetchOutcome) (s : State) :
  callbacks (fst (handleSearch_resume o s)) = callbacks s.
Proof.
  unfold callbacks.
  destruct o as [e|e|[fs|]]; simpl; try destruct (map_features fs);
    simpl; rewrite ?filter_app; simpl; rewrite ?app_nil_r; reflexivity.
Qed.

Lemma callbacks_unmount (s : State) : callbacks (unmount s) = callbacks s.
Proof.
  unfold unmount, callbacks.
  destruct (map_cleanup s) as [[]|]; simpl;
    destruct (debounce_cleanup s) as [[id]|]; reflexivity.
Qed.

Lemma callbacks_click_handler (e : LngLat) (s : State) :
  callbacks (click_handler e s)
  = callbacks s ++ [onLocationSelected (lat e) (lng e)].
Proof.
  unfold click_handler, callbacks. simpl.
  destruct (marker s); simpl; rewrite !filter_app; simpl;
    now rewrite app_nil_r.
Qed.

(** The handlers that do not call the host. *)
Lemma callbacks_handle_other (e : Event) (s : State) :
  is_selection e = false -> callbacks (handle e s) = callbacks s.
Proof.
  destruct e as [v| |o|i|p|p|ms|id|r o|]; simpl; try discriminate;
    intros _.
  - now destruct (mounted s).
  - now destruct (mounted s).
  - now destruct (mounted s).
  - reflexivity.
  - destruct (find (fun t => timer_id t =? id) (timers s)) as [t|];
      [|reflexivity].
    destruct (due t s); [|reflexivity].
    destruct (callback t) as [query]. simpl.
    now rewrite callbacks_handleSearch.
  - destruct (existsb (Nat.eqb r) (in_flight s)); [|reflexivity].
    now rewrite callbacks_handleSearch_resume.
  - destruct (mounted s); [|reflexivity]. apply callbacks_unmount.
Qed.

(** The handlers that call the host: once, or not at all when the event
    is not delivered. *)
Lemma callbacks_handle_selection (e : Event) (s : State) :
  callbacks (handle e s) = callbacks s
  \/ exists lat lng,
       callbacks (handle e s) = callbacks s ++ [onLocationSelected lat lng].
Proof.
  destruct (is_selection e) eqn:He;
    [|left; now apply callbacks_handle_other].
  destruct e as [v| |o|i|p|p|ms|id|r o|]; try discriminate; simpl.
  - destruct (mounted s && open s); [|now left].
    destruct (nth_error (searchResults s) i) as [result|]; [|now left].
    right. do 2 eexists. apply selectLocation_always.
  - destruct (map s) as [m|]; [|now left].
    destruct (on_click m); [|now left].
    right. do 2 eexists. apply callbacks_click_handler.
  - destruct (map s) as [m|]; [|now left].
    destruct (marker s) as [k|]; [|now left].
    destruct (negb (removed m) && added k && draggable k); [|now left].
    destruct (on_dragend k); [|now left].
    right. do 2 eexists.
    rewrite (dragend_handler_spec _ p) by reflexivity.
    now rewrite callbacks_emit.
Qed.

(** X1. The host callback is called by three kinds of events only: a
    result chosen from the list, a click on the map, a marker released.
    Each of them calls it at most once, and typing, time, timers,
    responses, the popover and unmounting never call it. *)
Theorem callback_only_on_selection (e : Event) (s : State) :
  (is_selection e = false -> callbacks (step e s) = callbacks s)
  /\ (callbacks (step e s) = callbacks s
      \/ exists lat lng,
           callbacks (step e s)
           = callbacks s ++ [onLocationSelected lat lng]).
Proof.
  rewrite callbacks_step. split.
  - apply callbacks_handle_other.
  - apply callbacks_handle_selection.
Qed.

End HostCallback.

(** ** The marker and the access token, over all events *)

Import Mapbox LocationPicker.

(** Unfolds the handlers and splits on every test they make. *)
Ltac handler_cases :=
  repeat first
    [ progress simpl
    | progress
        (unfold selectLocation, click_handler, dragend_handler,
           marker_position, handleSearch, handleSearch_resume,
           handleSearch_catch, unmount, run_callback, run_map_cleanup,
           run_debounce_cleanup, JS.encodeURIComponent)
    | match goal with
      | |- context [match ?x with _ => _ end] => destruct x eqn:?
      end ].

Section Refs.


Lemma accessToken_handle (e : Event) (s : State) :
  accessToken (handle e s) = accessToken s.
Proof. destruct e; handler_cases; reflexivity. Qed.

Lemma accessToken_step (e : Event) (s : State) :
  accessToken (step e s) = accessToken s.
Proof.
  unfold step.
  destruct (rerender_frame (searchInput s) (handle e s))
    as (_ & _ & _ & _ & _ & _ & _ & _ & _ & -> & _).
  apply accessToken_handle.
Qed.


Lemma map_handle_none (e : Event) (s : State) :
  map s = None -> map (handle e s) = None.
Proof.
  intros Hm. destruct e; handler_cases;
    repeat match goal with
           | H : context [match ?x with _ => _ end] |- _ =>
               destruct x; simpl in H
           end;
    rewrite ?Hm; try reflexivity; congruence.
Qed.









End Refs.

(** ** The access token of the lookups *)

Section AccessToken.

Import Mapbox LocationPicker.

(** A step issues no lookup or one, with the token of the page. *)
Lemma lookups_step_cases (e : Event) (s : State) :
  lookups (step e s) = lookups s
  \/ exists q,
       lookups (step e s)
       = lookups s
         ++ [fetch {| url_query := q;
                      url_access_token := accessToken s |}].
Proof.
  rewrite lookups_step.
  destruct e as [v| |o|i|p|p|ms|id|r o|];
    try (left; apply lookups_handle_other; discriminate).
  destruct (lookups_timer_fires id s) as [H|(t & query & _ & _ & _ & H)];
    [now left|right].
  exists (JS.encoded query). exact H.
Qed.

Lemma lookups_carry_step (t : option JS.string) (e : Event) (s : State) :
  accessToken s = t ->
  lookups_carry t s ->
  accessToken (step e s) = t /\ lookups_carry t (step e s).
Proof.
  intros Ht Hl. split; [now rewrite accessToken_step|].
  unfold lookups_carry in *.
  destruct (lookups_step_cases e s) as [->|(q & ->)]; [exact Hl|].
  apply Forall_app. split; [exact Hl|].
  constructor; [|constructor]. simpl. now rewrite Ht.
Qed.

Lemma lookups_carry_run (t : option JS.string) (es : list Event) (s : State) :
  accessToken s = t ->
  lookups_carry t s ->
  accessToken (run es s) = t /\ lookups_carry t (run es s).
Proof.
  revert s. induction es as [|e es IH]; intros s Ht Hl; [now split|].
  destruct (lookups_carry_step t e s Ht Hl) as (Ht' & Hl').
  exact (IH (step e s) Ht' Hl').
Qed.



(** X4. Every lookup issued by a component mounted with its container
    carries the access token the map effect set. *)
Theorem lookups_carry_token
    (p : Props) (div : HTMLDivElement) (es : list Event) :
  accessToken (run es (mount p (Some div))) = Some token
  /\ lookups_carry (Some token) (run es (mount p (Some div))).
Proof.
  apply lookups_carry_run; [reflexivity|constructor].
Qed.

End AccessToken.

(** ** After the unmount *)

Section TornDown.

Import Mapbox LocationPicker.

Lemma map_cleanup_rerender (previous : JS.string) (s : State) :
  map_cleanup (rerender previous s) = map_cleanup s.
Proof.
  unfold rerender.
  destruct (mounted s && negb (JS.eqb previous (searchInput s)));
    [|reflexivity].
  destruct (debounce_cleanup s) as [[id]|]; reflexivity.
Qed.

Lemma map_cleanup_handle (e : Event) (s : State) :
  e <> Unmount -> map_cleanup (handle e s) = map_cleanup s.
Proof.
  intros Hne. destruct e; try (now elim Hne); handler_cases;
    try reflexivity; congruence.
Qed.

Lemma mounted_handle_same (e : Event) (s : State) :
  e <> Unmount -> mounted (handle e s) = mounted s.
Proof.
  intros Hne. destruct e; try (now elim Hne); handler_cases;
    try reflexivity; congruence.
Qed.

(** No handler but the unmount touches the listeners or the removed flag
    of the map, and none creates a map. *)
Lemma map_handle_flags (e : Event) (s : State) :
  e <> Unmount ->
  match map (handle e s) with
  | Some m' =>
      exists m,
        map s = Some m
        /\ on_click m' = on_click m /\ removed m' = removed m
  | None => True
  end.
Proof.
  intros Hne.
  destruct (map s) as [m|] eqn:Hm;
    [|now rewrite (map_handle_none e s Hm)].
  assert (Hsame : forall s', map s' = map s ->
            match map s' with
            | Some m' =>
                exists m0, Some m = Some m0
                  /\ on_click m' = on_click m0 /\ removed m' = removed m0
            | None => True
            end).
  { intros s' ->. rewrite Hm. now exists m. }
  destruct e as [v| |o|i|p|p|ms|id|r o|]; simpl handle.
  - destruct (mounted s); apply Hsame; reflexivity.
  - destruct (mounted s); apply Hsame; reflexivity.
  - destruct (mounted s); apply Hsame; reflexivity.
  - destruct (mounted s && open s); [|now apply Hsame].
    destruct (nth_error (searchResults s) i) as [result|];
      [|now apply Hsame].
    unfold selectLocation. destruct (center result) as [c0 c1].
    destruct (marker s); simpl; rewrite Hm; simpl; now exists m.
  - rewrite Hm. destruct (on_click m); [|now apply Hsame].
    unfold click_handler. simpl.
    destruct (marker s); simpl; rewrite Hm; now exists m.
  - rewrite Hm. destruct (marker s) as [k|]; [|now apply Hsame].
    destruct (negb (removed m) && added k && draggable k);
      [|now apply Hsame].
    destruct (on_dragend k); [|apply Hsame; reflexivity].
    rewrite (dragend_handler_spec _ p) by reflexivity.
    apply Hsame. reflexivity.
  - apply Hsame. reflexivity.
  - destruct (find (fun t => timer_id t =? id) (timers s)) as [t|];
      [|now apply Hsame].
    destruct (due t s); [|now apply Hsame].
    destruct (callback t) as [query]. simpl.
    apply Hsame. now destruct (handleSearch_refs query (clearTimeout id s)).
  - destruct (existsb (Nat.eqb r) (in_flight s)); [|now apply Hsame].
    apply Hsame.
    now destruct (handleSearch_resume_refs o
                    (set_in_flight
                       (filter (fun r0 => negb (r0 =? r)) (in_flight s))
                       (next_request s) s)).
  - now elim Hne.
Qed.

Lemma map_owned_mount (p : Props) (container : option HTMLDivElement) :
  map_owned (mount p container).
Proof. destruct container; reflexivity. Qed.

Lemma map_owned_handle_other (e : Event) (s : State) :
  e <> Unmount -> map_owned s -> map_owned (handle e s).
Proof.
  intros Hne Ho. unfold map_owned in *.
  pose proof (map_handle_flags e s Hne) as Hf.
  rewrite (map_cleanup_handle e s Hne), (mounted_handle_same e s Hne).
  destruct (map (handle e s)) as [m'|]; [|exact I].
  destruct Hf as (m & Hm & Hc & Hr). rewrite Hm in Ho.
  rewrite Hc, Hr. exact Ho.
Qed.

Lemma map_owned_step (e : Event) (s : State) :
  map_owned s -> map_owned (step e s).
Proof.
  intros Ho. unfold step.
  assert (Hh : map_owned (handle e s));
    [|unfold map_owned in *;
      destruct (rerender_frame (searchInput s) (handle e s))
        as (-> & _ & _ & _ & -> & _);
      now rewrite map_cleanup_rerender].
  destruct e as [v| |o|i|p|p|ms|id|r o|];
    try (apply map_owned_handle_other; [discriminate|exact Ho]).
  unfold map_owned in *. simpl handle.
  destruct (mounted s) eqn:Hmt.
  - unfold unmount. simpl.
    destruct (map s) as [m|] eqn:Hm.
    + rewrite Ho. simpl. rewrite Hm. simpl.
      destruct (debounce_cleanup s) as [[id]|]; simpl; now split.
    + destruct (map_cleanup s) as [[]|]; simpl; rewrite ?Hm; simpl;
        destruct (debounce_cleanup s) as [[id]|]; simpl; rewrite ?Hm;
        exact I.
  - rewrite Hmt. exact Ho.
Qed.

Lemma reachable_map_owned (s : State) : reachable s -> map_owned s.
Proof.
  induction 1 as [p container|e s _ IH].
  - apply map_owned_mount.
  - now apply map_owned_step.
Qed.

(** Nothing reaches the host from a component that is torn down. *)
Lemma torn_down_step (e : Event) (s : State) :
  torn_down s ->
  torn_down (step e s) /\ callbacks (step e s) = callbacks s.
Proof.
  intros (Hmt & Hmap).
  assert (Hh : handle e s = s \/ (keeps_text e = true
                                  /\ is_selection e = false
                                  /\ e <> Unmount)).
  { destruct e as [v| |o|i|p|p|ms|id|r o|]; simpl; rewrite ?Hmt;
      try (now left); try (right; repeat split; discriminate).
    - destruct (map s) as [m|]; [|now left].
      destruct Hmap as (-> & _). now left.
    - destruct (map s) as [m|]; [|now left].
      destruct Hmap as (_ & ->). simpl.
      destruct (marker s); now left. }
  unfold step.
  destruct Hh as [->|(Hk & Hs & Hne)].
  - rewrite rerender_same. repeat split; assumption.
  - destruct (rerender_frame (searchInput s) (handle e s))
      as (Hm' & _ & _ & _ & Hmap' & _ & _ & _ & _ & _ & Htr).
    split; [split|].
    + rewrite Hm', mounted_handle_same by exact Hne. exact Hmt.
    + rewrite Hmap'.
      pose proof (map_handle_flags e s Hne) as Hf.
      destruct (map (handle e s)) as [m'|]; [|exact I].
      destruct Hf as (m & Hm & Hc & Hr). rewrite Hm in Hmap.
      now rewrite Hc, Hr.
    + unfold callbacks. rewrite Htr.
      now apply callbacks_handle_other.
Qed.

Lemma torn_down_run (es : list Event) (s : State) :
  torn_down s -> callbacks (run es s) = callbacks s.
Proof.
  revert s. induction es as [|e es IH]; intros s Ht; [reflexivity|].
  destruct (torn_down_step e s Ht) as (Ht' & Hc).
  simpl. rewrite <- Hc. now apply IH.
Qed.

(** X5. After the unmount the host callback is never called again: the
    unmount removes the map, so no click on it and no drag of the marker
    is delivered, the list is gone, and whatever else happens (time,
    timers, late responses) the calls of the callback stay those made
    before the unmount. *)
Theorem no_callback_after_unmount (s : State) (es : list Event) :
  reachable s ->
  callbacks (run es (step Unmount s)) = callbacks s.
Proof.
  intros Hr.
  pose proof (reachable_map_owned _ (reachable_step Unmount s Hr)) as Ho.
  assert (Hm : mounted (step Unmount s) = false).
  { unfold step.
    destruct (rerender_frame (searchInput s) (handle Unmount s))
      as (-> & _).
    simpl. destruct (mounted s) eqn:Hm; [reflexivity|exact Hm]. }
  assert (Ht : torn_down (step Unmount s)).
  { split; [exact Hm|]. unfold map_owned in Ho. rewrite Hm in Ho.
    exact Ho. }
  rewrite (torn_down_run es _ Ht).
  rewrite callbacks_step. now apply callbacks_handle_other.
Qed.

Lemma no_callback_after_unmount_witness :
  callbacks
    (run [MapClick {| Mapbox.lng := 85.3%float; Mapbox.lat := 27.7%float |};
          MarkerDragEnd {| Mapbox.lng := 83.9856%float;
                           Mapbox.lat := 28.2096%float |};
          ItemSelect 0; TimeAdvances 300; TimerFires 2]
       (step Unmount Sample.searched_picker))
  = callbacks Sample.searched_picker.
Proof.
  apply (no_callback_after_unmount Sample.searched_picker).
  exact searched_picker_reachable.
Defined.

End TornDown.

(** ** Responses *)

Section Responses.

Lemma in_flight_rerender (previous : JS.string) (s : State) :
  in_flight (rerender previous s) = in_flight s.
Proof.
  now destruct (rerender_frame previous s)
    as (_ & _ & _ & _ & _ & _ & _ & -> & _).
Qed.

Lemma searchResults_rerender (previous : JS.string) (s : State) :
  searchResults (rerender previous s) = searchResults s.
Proof.
  now destruct (rerender_frame previous s) as (_ & _ & _ & -> & _).
Qed.

Lemma in_flight_handleSearch_resume (o : FetchOutcome) (s : State) :
  in_flight (fst (handleSearch_resume o s)) = in_flight s.
Proof.
  destruct o as [e|e|[fs|]]; simpl; try destruct (map_features fs);
    reflexivity.
Qed.

(** What a response leaves in the result list depends on the response
    alone. *)
Lemma searchResults_handleSearch_resume (o : FetchOutcome) (s : State) :
  searchResults (fst (handleSearch_resume o s))
  = match o with
    | json_resolves (features fs) =>
        match map_features fs with inr results => results | inl _ => [] end
    | _ => []
    end.
Proof.
  destruct o as [e|e|[fs|]]; simpl; try destruct (map_features fs);
    reflexivity.
Qed.

Lemma existsb_in_flight (r : nat) (l : list nat) :
  existsb (Nat.eqb r) l = true <-> In r l.
Proof.
  rewrite existsb_exists. split.
  - intros (x & Hx & He). apply Nat.eqb_eq in He. now subst.
  - intros H. exists r. now rewrite Nat.eqb_refl.
Qed.

(** A response that settles takes its own request off the requests in
    flight and leaves the others. *)
Lemma in_flight_settle (r r' : nat) (o : FetchOutcome) (s : State) :
  In r (in_flight s) -> r <> r' ->
  In r (in_flight (step (FetchSettles r' o) s)).
Proof.
  intros Hin Hne. unfold step. rewrite in_flight_rerender. simpl handle.
  destruct (existsb (Nat.eqb r') (in_flight s)); [|exact Hin].
  rewrite in_flight_handleSearch_resume. simpl.
  apply filter_In. split; [exact Hin|].
  apply negb_true_iff, Nat.eqb_neq. exact Hne.
Qed.


Lemma searchResults_settle (r : nat) (o : FetchOutcome) (s : State) :
  In r (in_flight s) ->
  searchResults (step (FetchSettles r o) s)
  = match o with
    | json_resolves (features fs) =>
        match map_features fs with inr results => results | inl _ => [] end
    | _ => []
    end.
Proof.
  intros Hin. unfold step. rewrite searchResults_rerender. simpl handle.
  apply existsb_in_flight in Hin. rewrite Hin.
  apply searchResults_handleSearch_resume.
Qed.

(** X6. With two lookups in flight, the result list ends up as the
    response that settles last leaves it, whichever request was issued
    first: a late answer to the older lookup replaces the results of the
    newer one, and a late failure of the older lookup clears them.  The
    code does not tie a response to the text the input holds. *)
Theorem last_response_wins
    (s : State) (r1 r2 : nat) (o2 : FetchOutcome) :
  In r1 (in_flight s) ->
  In r2 (in_flight s) ->
  r1 <> r2 ->
  (forall fs1,
     searchResults (run [FetchSettles r2 o2; FetchSettles r1 (found fs1)] s)
     = List.map to_result fs1)
  /\ (forall o1,
        fails o1 = true ->
        searchResults (run [FetchSettles r2 o2; FetchSettles r1 o1] s) = []).
Proof.
  intros H1 H2 Hne.
  pose proof (in_flight_settle r1 r2 o2 s H1 Hne) as H1'.
  split.
  - intros fs1. simpl. rewrite (searchResults_settle r1 _ _ H1').
    unfold found. now rewrite map_features_all.
  - intros o1 Hf. simpl. rewrite (searchResults_settle r1 _ _ H1').
    destruct o1 as [e|e|[fs|]]; try reflexivity.
    simpl in Hf. now rewrite (map_features_null fs Hf).
Qed.

Lemma last_response_wins_witness :
  searchInput Sample.waiting_picker = Sample.pokhara
  /\ searchResults
       (run [FetchSettles 2 (found [Sample.pokhara_feature]);
             FetchSettles 1 (found [Sample.kathmandu_feature])]
          Sample.waiting_picker)
     = [Sample.kathmandu_result].
Proof.
  split; [reflexivity|].
  refine (proj1 (last_response_wins Sample.waiting_picker 1 2
                   (found [Sample.pokhara_feature]) _ _ _)
            [Sample.kathmandu_feature]).
  - vm_compute. now left.
  - vm_compute. right. now left.
  - discriminate.
Defined.



End Responses.

(** ** Idle periods and bursts *)

Section Idle.

Lemma searchInput_handle_keeps (e : Event) (s : State) :
  keeps_text e = true -> searchInput (handle e s) = searchInput s.
Proof.
  destruct e; try discriminate; intros _; handler_cases; reflexivity.
Qed.

Lemma step_keeps_text (e : Event) (s : State) :
  keeps_text e = true -> step e s = handle e s.
Proof.
  intros Hk. unfold step. apply rerender_unchanged.
  now apply searchInput_handle_keeps.
Qed.

Lemma timers_handle_keeps (e : Event) (s : State) :
  keeps_text e = true ->
  timers s = [] ->
  timers (handle e s) = [].
Proof.
  intros Hk Ht. destruct e; try discriminate; simpl; rewrite ?Ht;
    handler_cases; rewrite ?Ht; reflexivity.
Qed.

(** With no timer armed, an event that leaves the text alone arms none
    and issues no lookup. *)
Lemma idle_step (e : Event) (s : State) :
  keeps_text e = true ->
  timers s = [] ->
  timers (step e s) = [] /\ lookups (step e s) = lookups s.
Proof.
  intros Hk Ht. rewrite (step_keeps_text e s Hk).
  split; [now apply timers_handle_keeps|].
  destruct (lookups_timer_fires_or_other e s) as [H|(id & t & -> & Hf)];
    [exact H|].
  rewrite Ht in Hf. discriminate.
Qed.

Lemma idle_run (es : list Event) (s : State) :
  forallb keeps_text es = true ->
  timers s = [] ->
  timers (run es s) = [] /\ lookups (run es s) = lookups s.
Proof.
  revert s. induction es as [|e es IH]; intros s Hk Ht; [now split|].
  simpl in Hk. apply andb_true_iff in Hk as [Hk Hks].
  destruct (idle_step e s Hk Ht) as (Ht' & Hl).
  destruct (IH (step e s) Hks Ht') as (IH1 & IH2).
  simpl. split; [exact IH1|congruence].
Qed.

(** X8. A debounce timer fires once.  When the one armed timer has fired,
    the timer table is empty, and until the search text changes again (by
    typing or by a selection) no event issues a lookup, however much time
    passes and whatever clicks, drags and responses come in. *)
Theorem one_lookup_per_idle_period
    (s : State) (t : Timer) (es : list Event) :
  timers s = [t] ->
  due t s = true ->
  forallb keeps_text es = true ->
  timers (step (TimerFires (timer_id t)) s) = []
  /\ timers (run es (step (TimerFires (timer_id t)) s)) = []
  /\ lookups (run es (step (TimerFires (timer_id t)) s))
     = lookups (step (TimerFires (timer_id t)) s).
Proof.
  intros Ht Hd Hk.
  assert (Hfired : timers (step (TimerFires (timer_id t)) s) = []).
  { destruct (callback t) as [query] eqn:Hcb.
    rewrite (step_timer_fires t query s Ht Hd Hcb).
    destruct (handleSearch_frame query (clearTimeout (timer_id t) s))
      as (_ & _ & _ & -> & _).
    simpl. rewrite Ht. simpl. now rewrite Nat.eqb_refl. }
  split; [exact Hfired|]. now apply idle_run.
Qed.

Lemma one_lookup_per_idle_period_witness :
  length (lookups (step (TimerFires 2) Sample.typed_picker)) = 1
  /\ lookups (run [TimeAdvances 1000; TimerFires 2; InputClick;
                   TimeAdvances 1000; TimerFires 2]
                (step (TimerFires 2) Sample.typed_picker))
     = lookups (step (TimerFires 2) Sample.typed_picker).
Proof.
  split; [reflexivity|].
  refine (proj2 (proj2
    (one_lookup_per_idle_period Sample.typed_picker
       {| timer_id := 2; armed_at := 0; delay := 300;
          callback := HandleSearch Sample.kathmandu |}
       [TimeAdvances 1000; TimerFires 2; InputClick;
        TimeAdvances 1000; TimerFires 2] _ _ _)));
    reflexivity.
Defined.

Lemma last_cons {A} (a d : A) (l : list A) : last (a :: l) d = last l a.
Proof.
  revert a d. induction l as [|b l IH]; intros a d; [reflexivity|].
  change (last (a :: b :: l) d) with (last (b :: l) d).
  now rewrite (IH b d), (IH b a).
Qed.

Lemma step_input_change (v : JS.string) (s : State) :
  mounted s = true ->
  mounted (step (InputChange v) s) = true
  /\ searchInput (step (InputChange v) s) = v
  /\ lookups (step (InputChange v) s) = lookups s.
Proof.
  intros Hm. unfold step, lookups.
  destruct (rerender_frame (searchInput s) (handle (InputChange v) s))
    as (-> & -> & _ & _ & _ & _ & _ & _ & _ & _ & ->).
  simpl. rewrite Hm. now repeat split.
Qed.

Lemma accessToken_run (es : list Event) (s : State) :
  accessToken (run es s) = accessToken s.
Proof.
  revert s. induction es as [|e es IH]; intros s; [reflexivity|].
  simpl. rewrite IH. apply accessToken_step.
Qed.

(** A burst of changes of the text issues no lookup and leaves the last
    text in the input. *)
Lemma burst_run (vs : list JS.string) (s : State) :
  mounted s = true ->
  mounted (run (List.map InputChange vs) s) = true
  /\ searchInput (run (List.map InputChange vs) s)
     = last vs (searchInput s)
  /\ lookups (run (List.map InputChange vs) s) = lookups s.
Proof.
  revert s. induction vs as [|v vs IH]; intros s Hm; [now repeat split|].
  destruct (step_input_change v s Hm) as (Hm' & Hi & Hl).
  destruct (IH (step (InputChange v) s) Hm') as (IH1 & IH2 & IH3).
  simpl List.map. simpl run. rewrite last_cons.
  rewrite IH2, IH3, Hi, Hl. now repeat split.
Qed.

(** X9. Changes of the text in a burst coalesce.  However many changes
    follow one another, none of them issues a lookup; the input holds the
    last text, and at most one timer is armed, for that text.  When that
    timer fires, 300 ms or more after it was armed, one lookup goes out,
    for the last text, unless that text is blank or cannot be encoded. *)
Theorem burst_coalesces (s : State) (vs : list JS.string) :
  reachable s ->
  mounted s = true ->
  let typed := run (List.map InputChange vs) s in
  searchInput typed = last vs (searchInput s)
  /\ lookups typed = lookups s
  /\ length (timers typed) <= 1
  /\ forall t ms,
       timers typed = [t] ->
       armed_at t + 300 <= now typed + ms ->
       lookups (run [TimeAdvances ms; TimerFires (timer_id t)] typed)
       = lookups s
         ++ (if negb (JS.blank (searchInput typed))
                && JS.well_formed (searchInput typed)
             then [fetch {| url_query := JS.encoded (searchInput typed);
                            url_access_token := accessToken s |}]
             else []).
Proof.
  intros Hr Hm typed.
  destruct (burst_run vs s Hm) as (Hm' & Hi & Hl). fold typed in Hm', Hi, Hl.
  assert (Hr' : reachable typed) by now apply reachable_run.
  pose proof (reachable_timers_inv typed Hr') as (Hinv & _).
  destruct (Hinv Hm') as (id & _ & _ & Hts).
  split; [exact Hi|]. split; [exact Hl|]. split.
  - destruct Hts as [->|(t & -> & _)]; simpl; lia.
  - intros t ms Ht Hms.
    destruct Hts as [Hts|(t' & Hts & (_ & Hdl & Hcb) & _)];
      rewrite Hts in Ht; [discriminate|].
    injection Ht as ->.
    simpl run. rewrite step_time_advances.
    set (later := set_now (now typed + ms) typed).
    assert (Hfire : step (TimerFires (timer_id t)) later
                    = fst (handleSearch (searchInput typed)
                             (clearTimeout (timer_id t) later))).
    { apply (step_timer_fires t); [exact Hts| |exact Hcb].
      unfold due. rewrite Hdl. simpl. apply Nat.leb_le. exact Hms. }
    rewrite Hfire, lookups_handleSearch.
    assert (Ha : accessToken typed = accessToken s)
      by apply accessToken_run.
    unfold lookups in *. simpl. now rewrite Hl, Ha.
Qed.

Lemma burst_coalesces_witness :
  lookups (run (List.map InputChange Sample.burst) Sample.mounted_picker)
  = []
  /\ lookups
       (run [TimeAdvances 300; TimerFires 4]
          (run (List.map InputChange Sample.burst) Sample.mounted_picker))
     = [fetch {| url_query := JS.encoded (JS.lit "Kat"%string);
                 url_access_token := Some token |}].
Proof.
  destruct (burst_coalesces Sample.mounted_picker Sample.burst
              (reachable_mount Sample.props (Some Sample.div)) eq_refl)
    as (_ & Hl & _ & Hfire).
  split; [exact Hl|].
  refine (Hfire {| timer_id := 4; armed_at := 0; delay := 300;
                   callback := HandleSearch (JS.lit "Kat"%string) |}
                300 _ _);
    [reflexivity|vm_compute; repeat constructor].
Defined.

(** X10. When the timer fires while the input holds a blank text (the
    user cleared it, or typed spaces), the result list is emptied and
    nothing leaves the component: no lookup, no log, no request in
    flight. *)
Theorem blank_text_clears_results (s : State) (t : Timer) :
  reachable s ->
  timers s = [t] ->
  due t s = true ->
  JS.blank (searchInput s) = true ->
  searchResults (step (TimerFires (timer_id t)) s) = []
  /\ trace (step (TimerFires (timer_id t)) s) = trace s
  /\ in_flight (step (TimerFires (timer_id t)) s) = in_flight s.
Proof.
  intros Hr Ht Hd Hb.
  pose proof (reachable_timers_inv s Hr) as (Hinv & Hun).
  assert (Hcb : callback t = HandleSearch (searchInput s)).
  { destruct (mounted s).
    - destruct (Hinv eq_refl) as (id & _ & _ & [Hts|(t' & Hts & Ha & _)]);
        rewrite Hts in Ht; [discriminate|].
      injection Ht as ->. apply Ha.
    - rewrite (Hun eq_refl) in Ht. discriminate. }
  rewrite (step_timer_fires t _ s Ht Hd Hcb).
  rewrite (handleSearch_blank_eq _ _ Hb). now repeat split.
Qed.

Lemma blank_text_clears_results_witness :
  searchResults
    (step (TimerFires 3)
       (run [InputChange Sample.spaces; TimeAdvances 300]
          Sample.searched_picker))
  = []
  /\ searchResults Sample.searched_picker = [Sample.kathmandu_result].
Proof.
  split; [|reflexivity].
  refine (proj1 (blank_text_clears_results
    (run [InputChange Sample.spaces; TimeAdvances 300]
       Sample.searched_picker)
    {| timer_id := 3; armed_at := 300; delay := 300;
       callback := HandleSearch Sample.spaces |} _ _ _ _));
    try reflexivity.
  apply (reachable_run [InputChange Sample.spaces; TimeAdvances 300]).
  apply (reachable_run Sample.searched).
  apply (reachable_run Sample.typed), reachable_mount.
Defined.

End Idle.

(** ** What the events leave alone *)

Section Frames.





Lemma searchResults_handle (e : Event) (s : State) :
  may_set_results e = false ->
  searchResults (handle e s) = searchResults s.
Proof.
  destruct e; try discriminate; intros _; handler_cases; reflexivity.
Qed.

Lemma next_timer_handle (e : Event) (s : State) :
  next_timer (handle e s) = next_timer s.
Proof. destruct e; handler_cases; reflexivity. Qed.

(** X12. The result list is written by a firing timer or a settling
    response only: typing, choosing a result, clicking and dragging leave
    the listed results as they are, so the results of the previous lookup
    stay listed until the next timer fires.  The search text is written
    by typing and by choosing a result only, and no other event arms a
    debounce timer. *)
Theorem results_and_text_writers (e : Event) (s : State) :
  (may_set_results e = false ->
   searchResults (step e s) = searchResults s)
  /\ (keeps_text e = true ->
      searchInput (step e s) = searchInput s
      /\ next_timer (step e s) = next_timer s
      /\ forall t, In t (timers (step e s)) -> In t (timers s)).
Proof.
  split.
  - intros He. unfold step. rewrite searchResults_rerender.
    now apply searchResults_handle.
  - intros He. rewrite (step_keeps_text e s He).
    split; [now apply searchInput_handle_keeps|].
    split; [apply next_timer_handle|].
    destruct e; try discriminate; handler_cases;
      intros t' Ht; simpl in Ht;
      repeat (apply filter_In in Ht; destruct Ht as [Ht _]);
      exact Ht.
Qed.

End Frames.
